(** * Earned Schedule calculator and what-if simulation

    A shallow embedding of the class [ESCalculator] of
    [static/js/es_calculator.js] and of the simulation class
    [ESSimulation], with the properties of the Earned Schedule engine and
    of the step-driven simulation proved about it.

    Numbers.  A JavaScript number is modelled as an exact rational extended
    with the two infinities and NaN; the rounding of binary64 arithmetic and
    the sign of zero are not modelled.  Period indices, step counters and
    the planned durations are integers (they come from [parseInt] in
    [app.js]) and are modelled as [Z].

    Objects.  The metrics object is a record of optional strings, as
    [calculateMetrics] fills it with [toFixed(2)]; the simulation object is
    a record passed from one method call to the next.  The charts and the
    text written to the page are outside the model; the timer of the
    autoplay is modelled apart, with the page that holds the object. *)

From Stdlib Require Import ZArith QArith Qabs Qround Qminmax List Bool Lia Lqa.
From Stdlib Require Import Ascii String.
Import ListNotations.

Local Open Scope Z_scope.

(* ================================================================== *)
(** ** JavaScript numbers *)

Module JsNum.

Inductive num : Type :=
| Fin (q : Q)
| PInf
| NInf
| NaN.

Definition of_Z (z : Z) : num := Fin (inject_Z z).

(** Equality of numbers up to the representation of the rational. *)
Definition num_eq (x y : num) : Prop :=
  match x, y with
  | Fin a, Fin b => Qeq a b
  | PInf, PInf | NInf, NInf | NaN, NaN => True
  | _, _ => False
  end.

(** [Qlt] and [Qle] as booleans. *)
Definition Qltb (a b : Q) : bool := negb (Qle_bool b a).

(** [x < y]; every comparison with NaN is false. *)
Definition ltb (x y : num) : bool :=
  match x, y with
  | NaN, _ | _, NaN => false
  | Fin a, Fin b => Qltb a b
  | NInf, NInf => false
  | NInf, _ => true
  | PInf, _ => false
  | Fin _, PInf => true
  | Fin _, NInf => false
  end.

Definition gtb (x y : num) : bool := ltb y x.

(** [x <= y]. *)
Definition leb (x y : num) : bool :=
  match x, y with
  | NaN, _ | _, NaN => false
  | Fin a, Fin b => Qle_bool a b
  | NInf, _ => true
  | _, PInf => true
  | PInf, _ => false
  | Fin _, NInf => false
  end.

Definition geb (x y : num) : bool := leb y x.

Definition neg (x : num) : num :=
  match x with
  | Fin a => Fin (- a)
  | PInf => NInf
  | NInf => PInf
  | NaN => NaN
  end.

Definition add (x y : num) : num :=
  match x, y with
  | NaN, _ | _, NaN => NaN
  | Fin a, Fin b => Fin (a + b)
  | PInf, NInf | NInf, PInf => NaN
  | PInf, _ | _, PInf => PInf
  | NInf, _ | _, NInf => NInf
  end.

Definition sub (x y : num) : num := add x (neg y).

(** The sign of a rational: -1, 0 or 1. *)
Definition Qsgn (a : Q) : Z := Z.sgn (Qnum a).

Definition inf_of_sign (s : Z) : num :=
  if s =? 0 then NaN else if 0 <? s then PInf else NInf.

Definition sgn (x : num) : Z :=
  match x with
  | Fin a => Qsgn a
  | PInf => 1
  | NInf => -1
  | NaN => 0
  end.

Definition mul (x y : num) : num :=
  match x, y with
  | NaN, _ | _, NaN => NaN
  | Fin a, Fin b => Fin (a * b)
  | _, _ => inf_of_sign (sgn x * sgn y)
  end.

(** Division; a finite number over zero is an infinity of the sign of the
    numerator, and 0/0 is NaN (the zero is taken as positive). *)
Definition div (x y : num) : num :=
  match x, y with
  | NaN, _ | _, NaN => NaN
  | Fin a, Fin b =>
      if Qeq_bool b 0 then inf_of_sign (Qsgn a) else Fin (a / b)
  | Fin _, _ => Fin 0
  | _, Fin b => inf_of_sign (sgn x * (if Qeq_bool b 0 then 1 else Qsgn b))
  | _, _ => NaN
  end.

(** [Math.abs]. *)
Definition abs (x : num) : num :=
  match x with
  | Fin a => Fin (Qabs a)
  | PInf | NInf => PInf
  | NaN => NaN
  end.

(** [Math.min] and [Math.max]: NaN when an argument is NaN. *)
Definition min (x y : num) : num :=
  match x, y with
  | NaN, _ | _, NaN => NaN
  | _, _ => if ltb y x then y else x
  end.

Definition max (x y : num) : num :=
  match x, y with
  | NaN, _ | _, NaN => NaN
  | _, _ => if ltb x y then y else x
  end.

End JsNum.

Import JsNum.

Declare Scope num_scope.
Delimit Scope num_scope with num.
Infix "+" := add : num_scope.
Infix "-" := sub : num_scope.
Infix "*" := mul : num_scope.
Infix "/" := div : num_scope.
Infix "<?" := ltb : num_scope.
Infix ">?" := gtb : num_scope.
Infix "<=?" := leb : num_scope.
Infix ">=?" := geb : num_scope.
Infix "==" := num_eq : num_scope.

(** A value read from an array: [None] is [undefined]. *)
Definition jsval := option num.

(** ToNumber: [undefined] becomes NaN. *)
Definition to_number (v : jsval) : num :=
  match v with Some x => x | None => NaN end.

(** [a[i]] for an array of numbers; out of range reads give [undefined]. *)
Definition aget (a : list num) (i : Z) : jsval :=
  if i <? 0 then None else nth_error a (Z.to_nat i).

(** [a.length]. *)
Definition alen {A : Type} (a : list A) : Z := Z.of_nat (List.length a).

(** The constant [1e-9]. *)
Definition eps : num := Fin (1 # 1000000000).

(* ================================================================== *)
(** ** ESCalculator.calculateEarnedSchedule *)

(** The [for] loop that looks for [C]: [rest] is the part of [pvCum] from
    index [i] on, [C] the current value of the variable ([None] is
    [null]). *)
Fixpoint scan_C (len : Z) (evCum : num) (rest : list num) (i : Z)
  (C : option Z) : option Z :=
  match rest with
  | [] => C
  | pv_i :: rest' =>
      if (pv_i >? evCum)%num then Some (i - 1)
      else if i =? len - 1 then scan_C len evCum rest' (i + 1) (Some i)
      else scan_C len evCum rest' (i + 1) C
  end.

Definition calculateEarnedSchedule (evCum : jsval) (pvCum : list num) : num :=
  let ev := to_number evCum in
  match scan_C (alen pvCum) ev pvCum 0 None with
  | None => of_Z 0
  | Some C =>
      if C <? 0 then of_Z 0
      else if (C =? alen pvCum - 1)
              || (abs (to_number (aget pvCum C) - ev) <? eps)%num
      then of_Z (C + 1)
      else
        let PV_C := to_number (aget pvCum C) in
        let PV_next := to_number (aget pvCum (C + 1)) in
        let I := if (abs (PV_next - PV_C) >? eps)%num
                 then ((ev - PV_C) / (PV_next - PV_C))%num
                 else of_Z 0 in
        (of_Z (C + 1) + I)%num
  end.

(** A series of rationals as an array of numbers. *)
Definition qs (l : list Q) : list num := map Fin l.

(* ================================================================== *)
(** ** Number formatting: [Number.prototype.toFixed] and [parseFloat]

    The two built-ins are modelled on decimal strings.  [toFixed] prints
    in fixed notation for every finite number (the switch to exponent
    notation from 1e21 on is not modelled). *)

(** The characters "0" to "9" are the codes 48 to 57. *)
Definition digit_char (d : Z) : ascii := ascii_of_nat (Z.to_nat (48 + d)).

Definition digit_val (c : ascii) : option Z :=
  let code := Z.of_nat (nat_of_ascii c) in
  if (48 <=? code) && (code <=? 57) then Some (code - 48) else None.

(** Decimal digits of [n >= 0], most significant first, in front of [acc]. *)
Fixpoint digits_aux (fuel : nat) (n : Z) (acc : string) : string :=
  match fuel with
  | O => acc
  | S fuel' =>
      let acc' := String (digit_char (n mod 10)) acc in
      if n / 10 =? 0 then acc' else digits_aux fuel' (n / 10) acc'
  end.

Definition digits (n : Z) : string :=
  digits_aux (S (Z.to_nat (Z.log2 n))) n EmptyString.

(** An integer in a template literal. *)
Definition string_of_Z (z : Z) : string :=
  if z <? 0 then ("-" ++ digits (- z))%string else digits z.

Fixpoint zeros (k : nat) : string :=
  match k with
  | O => EmptyString
  | S k' => String "0" (zeros k')
  end.

(** Left padding with zeros up to [f] characters. *)
Definition pad (f : nat) (s : string) : string :=
  (zeros (f - String.length s) ++ s)%string.

(** [x.toFixed(f)]: the integer [n] nearest to [|x| * 10^f] (the larger
    one on a tie), printed with [f] digits after the point. *)
Definition toFixed (f : nat) (x : num) : string :=
  match x with
  | NaN => "NaN"%string
  | PInf => "Infinity"%string
  | NInf => "-Infinity"%string
  | Fin q =>
      let p := 10 ^ Z.of_nat f in
      let n := Qfloor (Qabs q * inject_Z p + (1 # 2))%Q in
      ((if Qltb q 0%Q then "-" else "") ++
       digits (n / p) ++
       (if (f =? 0)%nat then "" else "." ++ pad f (digits (n mod p))))%string
  end.

Definition is_ws (c : ascii) : bool :=
  match c with
  | " " | "009" | "010" | "011" | "012" | "013" => true
  | _ => false
  end%char.

Fixpoint skip_ws (s : string) : string :=
  match s with
  | String c r => if is_ws c then skip_ws r else s
  | EmptyString => s
  end.

(** Reads a run of decimal digits: its value (continuing [acc]), the
    number of digits read (continuing [cnt]) and the rest of the string. *)
Fixpoint read_digits (s : string) (acc : Z) (cnt : nat) : Z * nat * string :=
  match s with
  | String c r =>
      match digit_val c with
      | Some d => read_digits r (10 * acc + d) (S cnt)
      | None => (acc, cnt, s)
      end
  | EmptyString => (acc, cnt, s)
  end.

Definition read_sign (s : string) : bool * string :=
  match s with
  | String "-" r => (true, r)
  | String "+" r => (false, r)
  | _ => (false, s)
  end.

(** The exponent part [e[+-]ddd] if there is one, 0 otherwise. *)
Definition read_exponent (s : string) : Z :=
  match s with
  | String c r =>
      if (Ascii.eqb c "e" || Ascii.eqb c "E")%bool then
        let '(neg, r') := read_sign r in
        let '(v, n, _) := read_digits r' 0 0 in
        if (n =? 0)%nat then 0 else if neg then - v else v
      else 0
  | EmptyString => 0
  end.

(** [parseFloat(s)]: the longest prefix of [s], after leading blanks, that
    is a decimal literal; NaN when there is none. *)
Definition parseFloat (s : string) : num :=
  let '(neg, s1) := read_sign (skip_ws s) in
  if String.prefix "Infinity" s1 then (if neg then NInf else PInf)
  else
    let '(ip, ni, s2) := read_digits s1 0 0 in
    let '(fp, nf, s3) :=
      match s2 with
      | String "." r => read_digits r 0 0
      | _ => (0, O, s2)
      end in
    if (ni + nf =? 0)%nat then NaN
    else
      let m := (inject_Z ip + inject_Z fp / inject_Z (10 ^ Z.of_nat nf))%Q in
      let e := if (ni =? 0)%nat && (nf =? 0)%nat then 0
               else read_exponent s3 in
      Fin ((if neg then - m else m) * Qpower 10 e)%Q.

(** A property read from an object, as [parseFloat] sees it: a missing
    property is [undefined], whose string is not a number. *)
Definition prop_string (v : option string) : string :=
  match v with Some s => s | None => "undefined"%string end.

(* ================================================================== *)
(** ** ESCalculator.calculateMetrics *)

(** The object returned by [calculateMetrics].  Every property holds the
    string made by [toFixed(2)]; a property that was not set is [None]. *)
Record metrics_record : Type := {
  ES : option string;
  SV_t : option string;
  SPI_t : option string;
  IEAC_t_M : option string;
  F_SV_t : option string;
  TSPI_M : option string;
  D_pre : option string;
  PD_rem : option string;
  SPI_t_rem : option string;
  IEAC_t_RP : option string
}.

(** [a.slice(start)] for an integer [start]. *)
Definition slice {A : Type} (a : list A) (start : Z) : list A :=
  let len := alen a in
  let k := if start <? 0 then Z.max (len + start) 0 else Z.min start len in
  skipn (Z.to_nat k) a.

(** The last element, [a[a.length - 1]]. *)
Definition alast (a : list num) : jsval := aget a (alen a - 1).

(** The local [SPI_t] of [calculateMetrics], at full precision. *)
Definition SPI_t_value (ES : num) (actualTime : Z) : num :=
  if actualTime >? 0 then (ES / of_Z actualTime)%num else of_Z 1.

Definition IEAC_t_M_value (SPI_t : num) (milestoneDuration : Z) : num :=
  if (SPI_t >? of_Z 0)%num then (of_Z milestoneDuration / SPI_t)%num
  else PInf.

Definition TSPI_M_value (ES : num) (actualTime milestoneDuration : Z) : num :=
  if negb (milestoneDuration =? actualTime)
  then ((of_Z milestoneDuration - ES)
        / (of_Z milestoneDuration - of_Z actualTime))%num
  else PInf.

(** The local [SPI_t_rem]: the index of the work after the re-plan. *)
Definition SPI_t_rem_value (pvValues evValues : list num) (SPI_t : num)
  (actualTime replanTime : Z) : num :=
  if actualTime >? replanTime then
    let postReplanPV := slice pvValues replanTime in
    let postReplanEV := slice evValues replanTime in
    let postReplanAT := actualTime - replanTime in
    if (postReplanAT >? 0) && (alen postReplanEV >? 0) then
      let ES_rem :=
        calculateEarnedSchedule (alast postReplanEV) postReplanPV in
      (ES_rem / of_Z postReplanAT)%num
    else SPI_t
  else SPI_t.

Definition IEAC_t_RP_value (SPI_t_rem : num) (D_pre PD_rem : Z) : num :=
  if (SPI_t_rem >? of_Z 0)%num
  then (of_Z D_pre + of_Z PD_rem / SPI_t_rem)%num
  else PInf.

(** [results.IEAC_t_M = ...; results.F_SV_t = ...; results.TSPI_M = ...]. *)
Definition set_milestone (results : metrics_record) (a b c : string) :
  metrics_record :=
  {| ES := ES results; SV_t := SV_t results; SPI_t := SPI_t results;
     IEAC_t_M := Some a; F_SV_t := Some b; TSPI_M := Some c;
     D_pre := D_pre results; PD_rem := PD_rem results;
     SPI_t_rem := SPI_t_rem results; IEAC_t_RP := IEAC_t_RP results |}.

(** The four assignments of the re-plan block. *)
Definition set_replan (results : metrics_record) (a b c d : string) :
  metrics_record :=
  {| ES := ES results; SV_t := SV_t results; SPI_t := SPI_t results;
     IEAC_t_M := IEAC_t_M results; F_SV_t := F_SV_t results;
     TSPI_M := TSPI_M results;
     D_pre := Some a; PD_rem := Some b;
     SPI_t_rem := Some c; IEAC_t_RP := Some d |}.

Definition calculateMetrics (pvValues evValues : list num) (actualTime : Z)
  (milestoneDuration replanTime : option Z) : metrics_record :=
  let ES := calculateEarnedSchedule (alast evValues) pvValues in
  let SV_t := (ES - of_Z actualTime)%num in
  let SPI_t := SPI_t_value ES actualTime in
  let results :=
    {| ES := Some (toFixed 2 ES);
       SV_t := Some (toFixed 2 SV_t);
       SPI_t := Some (toFixed 2 SPI_t);
       IEAC_t_M := None; F_SV_t := None; TSPI_M := None;
       D_pre := None; PD_rem := None; SPI_t_rem := None;
       IEAC_t_RP := None |} in
  let results :=
    match milestoneDuration with
    | Some md =>
        let IEAC_t_M := IEAC_t_M_value SPI_t md in
        let F_SV_t := (of_Z md - IEAC_t_M)%num in
        let TSPI_M := TSPI_M_value ES actualTime md in
        set_milestone results
          (toFixed 2 IEAC_t_M) (toFixed 2 F_SV_t) (toFixed 2 TSPI_M)
    | None => results
    end in
  match replanTime with
  | Some rt =>
      let D_pre := rt in
      let PD_rem := alen pvValues - rt in
      let SPI_t_rem :=
        SPI_t_rem_value pvValues evValues SPI_t actualTime rt in
      let IEAC_t_RP := IEAC_t_RP_value SPI_t_rem D_pre PD_rem in
      set_replan results
        (toFixed 2 (of_Z D_pre)) (toFixed 2 (of_Z PD_rem))
        (toFixed 2 SPI_t_rem) (toFixed 2 IEAC_t_RP)
  | None => results
  end.

(* ================================================================== *)
(** ** ESSimulation

    The object state of the simulation.  Of the page, only the status line
    ([simStatus.textContent] and [simStatus.className]) is part of the
    state; the progress bar, the charts, the metric display and the
    narrative text are writes to the page that no method reads back. *)

(** [this.simulationResults]: four arrays that grow together. *)
Record results : Type := {
  periods : list Z;
  pvValues : list jsval;
  evValues : list num;
  metrics : list metrics_record
}.

Record sim : Type := {
  isRunning : bool;
  currentStep : Z;
  maxSteps : Z;
  simulationInterval : option Z;
  scenario : string;
  initialPV : list num;
  initialEV : list num;
  initialAT : Z;
  milestoneDuration : Z;
  replanEnabled : bool;
  replanTime : option Z;
  currentPV : list num;
  currentEV : list num;
  currentAT : Z;
  currentMetrics : metrics_record;
  simulationResults : results;
  simStatus_textContent : string;
  simStatus_className : string
}.

Definition empty_results : results :=
  {| periods := []; pvValues := []; evValues := []; metrics := [] |}.

Definition empty_metrics : metrics_record :=
  {| ES := None; SV_t := None; SPI_t := None;
     IEAC_t_M := None; F_SV_t := None; TSPI_M := None;
     D_pre := None; PD_rem := None; SPI_t_rem := None;
     IEAC_t_RP := None |}.

(** The object made by the constructor; the status line starts with the
    text and class that the page gives it. *)
Definition constructor (textContent className : string) : sim :=
  {| isRunning := false;
     currentStep := 0;
     maxSteps := 0;
     simulationInterval := None;
     scenario := "recovery"%string;
     initialPV := [];
     initialEV := [];
     initialAT := 0;
     milestoneDuration := 10;
     replanEnabled := false;
     replanTime := None;
     currentPV := [];
     currentEV := [];
     currentAT := 0;
     currentMetrics := empty_metrics;
     simulationResults := empty_results;
     simStatus_textContent := textContent;
     simStatus_className := className |}.

(** [initSimulation], called on the object in state [this]. *)
Definition initSimulation (this : sim) (pvValues evValues : list num)
  (actualTime milestoneDuration steps : Z) (scenario : string)
  (replanEnabled : bool) : sim :=
  let replanTime := if replanEnabled then Some actualTime else None in
  {| isRunning := isRunning this;
     currentStep := 0;
     maxSteps := steps;
     simulationInterval := simulationInterval this;
     scenario := scenario;
     initialPV := pvValues;
     initialEV := evValues;
     initialAT := actualTime;
     milestoneDuration := milestoneDuration;
     replanEnabled := replanEnabled;
     replanTime := replanTime;
     currentPV := pvValues;
     currentEV := evValues;
     currentAT := actualTime;
     currentMetrics :=
       calculateMetrics pvValues evValues actualTime
         (Some milestoneDuration) replanTime;
     simulationResults := empty_results;
     simStatus_textContent :=
       ("Simulation initialized. " ++ string_of_Z steps
        ++ " steps to run.")%string;
     simStatus_className := "alert alert-info"%string |}.

(** The status line written when the simulation is over. *)
Definition report_complete (this : sim) : sim :=
  {| isRunning := isRunning this;
     currentStep := currentStep this;
     maxSteps := maxSteps this;
     simulationInterval := simulationInterval this;
     scenario := scenario this;
     initialPV := initialPV this;
     initialEV := initialEV this;
     initialAT := initialAT this;
     milestoneDuration := milestoneDuration this;
     replanEnabled := replanEnabled this;
     replanTime := replanTime this;
     currentPV := currentPV this;
     currentEV := currentEV this;
     currentAT := currentAT this;
     currentMetrics := currentMetrics this;
     simulationResults := simulationResults this;
     simStatus_textContent := "Simulation complete!"%string;
     simStatus_className := "alert alert-success"%string |}.

(** The extension of the PV array in [runStep]. *)
Definition extendPV (currentPV : list num) (nextPeriod : Z) : list num :=
  if alen currentPV <=? nextPeriod then
    let avgIncrement :=
      ((to_number (alast currentPV) - to_number (aget currentPV 0))
       / of_Z (alen currentPV - 1))%num in
    currentPV ++ [(to_number (alast currentPV) + avgIncrement)%num]
  else currentPV.

(** The SPI(t) aimed at in the next period, from the one read in the
    current metrics. *)
Definition targetSPIt (scenario : string) (currentSPIt : num) : num :=
  if String.eqb scenario "recovery" then
    min (of_Z 1) (currentSPIt + Fin (5 # 100))%num
  else if String.eqb scenario "slippage" then
    max (Fin (7 # 10)) (currentSPIt - Fin (3 # 100))%num
  else currentSPIt.

Definition runStep (this : sim) : sim :=
  if currentStep this >=? maxSteps this then report_complete this
  else
    let currentStep' := currentStep this + 1 in
    let nextPeriod := currentAT this + 1 in
    let PV := extendPV (currentPV this) nextPeriod in
    let currentPV_next := aget PV nextPeriod in
    let lastEV := alast (currentEV this) in
    let prevPV := aget PV (nextPeriod - 1) in
    let pvIncrement := (to_number currentPV_next - to_number prevPV)%num in
    let currentSPIt :=
      parseFloat (prop_string (SPI_t (currentMetrics this))) in
    let evIncrement :=
      (targetSPIt (scenario this) currentSPIt * pvIncrement)%num in
    let nextEV := (to_number lastEV + evIncrement)%num in
    let EV := currentEV this ++ [nextEV] in
    let newMetrics :=
      calculateMetrics PV EV nextPeriod
        (Some (milestoneDuration this)) (replanTime this) in
    let log := simulationResults this in
    let complete := currentStep' >=? maxSteps this in
    let timer := match simulationInterval this with
                 | Some _ => true | None => false end in
    {| isRunning := if complete && timer then false else isRunning this;
       currentStep := currentStep';
       maxSteps := maxSteps this;
       simulationInterval :=
         if complete && timer then None else simulationInterval this;
       scenario := scenario this;
       initialPV := initialPV this;
       initialEV := initialEV this;
       initialAT := initialAT this;
       milestoneDuration := milestoneDuration this;
       replanEnabled := replanEnabled this;
       replanTime := replanTime this;
       currentPV := PV;
       currentEV := EV;
       currentAT := nextPeriod;
       currentMetrics := newMetrics;
       simulationResults :=
         {| periods := periods log ++ [nextPeriod];
            pvValues := pvValues log ++ [currentPV_next];
            evValues := evValues log ++ [nextEV];
            metrics := metrics log ++ [newMetrics] |};
       simStatus_textContent :=
         if complete then "Simulation complete!"%string
         else ("Step " ++ string_of_Z currentStep' ++ "/"
               ++ string_of_Z (maxSteps this) ++ ": Period "
               ++ string_of_Z nextPeriod)%string;
       simStatus_className :=
         if complete then "alert alert-success"%string
         else simStatus_className this |}.

(** [n] calls of [runStep]. *)
Fixpoint runSteps (n : nat) (this : sim) : sim :=
  match n with
  | O => this
  | S n' => runSteps n' (runStep this)
  end.

(* ================================================================== *)
(** ** ESSimulation: autoplay

    The simulation object in its page: the interval timers that are
    active (identifiers returned by [setInterval] and not yet passed to
    [clearInterval]), the next identifier, and the label of the play
    button.  [setInterval] hands out positive integers in increasing
    order.  An event of the page is a call of a method or the firing of an
    active timer; each runs to its end before the next. *)

Record page : Type := {
  esSimulation : sim;
  activeTimers : list Z;
  nextTimerId : Z;
  btnSimPlay_textContent : string
}.

(** [this.isRunning = running; this.simulationInterval = interval]. *)
Definition set_timer (this : sim) (running : bool) (interval : option Z) :
  sim :=
  {| isRunning := running;
     currentStep := currentStep this;
     maxSteps := maxSteps this;
     simulationInterval := interval;
     scenario := scenario this;
     initialPV := initialPV this;
     initialEV := initialEV this;
     initialAT := initialAT this;
     milestoneDuration := milestoneDuration this;
     replanEnabled := replanEnabled this;
     replanTime := replanTime this;
     currentPV := currentPV this;
     currentEV := currentEV this;
     currentAT := currentAT this;
     currentMetrics := currentMetrics this;
     simulationResults := simulationResults this;
     simStatus_textContent := simStatus_textContent this;
     simStatus_className := simStatus_className this |}.

(** [this.simStatus.textContent = text; this.simStatus.className = cls]. *)
Definition set_status (this : sim) (text cls : string) : sim :=
  {| isRunning := isRunning this;
     currentStep := currentStep this;
     maxSteps := maxSteps this;
     simulationInterval := simulationInterval this;
     scenario := scenario this;
     initialPV := initialPV this;
     initialEV := initialEV this;
     initialAT := initialAT this;
     milestoneDuration := milestoneDuration this;
     replanEnabled := replanEnabled this;
     replanTime := replanTime this;
     currentPV := currentPV this;
     currentEV := currentEV this;
     currentAT := currentAT this;
     currentMetrics := currentMetrics this;
     simulationResults := simulationResults this;
     simStatus_textContent := text;
     simStatus_className := cls |}.

(** [clearInterval(handle)]: nothing happens for [null]. *)
Definition clearInterval (handle : option Z) (timers : list Z) : list Z :=
  match handle with
  | Some id => remove Z.eq_dec id timers
  | None => timers
  end.

(** The page when the simulation object has just been constructed. *)
Definition new_page (textContent className label : string) : page :=
  {| esSimulation := constructor textContent className;
     activeTimers := [];
     nextTimerId := 1;
     btnSimPlay_textContent := label |}.

(** [runStep] in the page: the step that completes the simulation clears
    the timer of the autoplay. *)
Definition page_runStep (p : page) : page :=
  let this := esSimulation p in
  let completes :=
    negb (currentStep this >=? maxSteps this)
    && (currentStep this + 1 >=? maxSteps this) in
  {| esSimulation := runStep this;
     activeTimers :=
       if completes then clearInterval (simulationInterval this)
                           (activeTimers p)
       else activeTimers p;
     nextTimerId := nextTimerId p;
     btnSimPlay_textContent := btnSimPlay_textContent p |}.

(** [initSimulation] in the page. *)
Definition page_initSimulation (p : page) (pvValues evValues : list num)
  (actualTime milestoneDuration steps : Z) (scenario : string)
  (replanEnabled : bool) : page :=
  {| esSimulation :=
       initSimulation (esSimulation p) pvValues evValues actualTime
         milestoneDuration steps scenario replanEnabled;
     activeTimers := activeTimers p;
     nextTimerId := nextTimerId p;
     btnSimPlay_textContent := btnSimPlay_textContent p |}.

Definition startAutoPlay (p : page) : page :=
  if isRunning (esSimulation p) then p
  else
    let this := esSimulation p in
    let p1 :=
      page_runStep
        {| esSimulation := set_timer this true (simulationInterval this);
           activeTimers := activeTimers p;
           nextTimerId := nextTimerId p;
           btnSimPlay_textContent := "Pause"%string |} in
    let id := nextTimerId p1 in
    {| esSimulation :=
         set_timer (esSimulation p1) (isRunning (esSimulation p1)) (Some id);
       activeTimers := id :: activeTimers p1;
       nextTimerId := id + 1;
       btnSimPlay_textContent := btnSimPlay_textContent p1 |}.

(** The function given to [setInterval], run when the timer [id] fires;
    a timer that is not active does not fire. *)
Definition intervalCallback (p : page) (id : Z) : page :=
  if negb (existsb (Z.eqb id) (activeTimers p)) then p
  else
    let this := esSimulation p in
    if currentStep this >=? maxSteps this then
      {| esSimulation := set_timer this false None;
         activeTimers :=
           clearInterval (simulationInterval this) (activeTimers p);
         nextTimerId := nextTimerId p;
         btnSimPlay_textContent := "Play"%string |}
    else page_runStep p.

Definition stopSimulation (p : page) : page :=
  let this := esSimulation p in
  let stopped := set_timer this false None in
  {| esSimulation :=
       if currentStep this <? maxSteps this then
         set_status stopped
           ("Simulation paused at step " ++ string_of_Z (currentStep this)
            ++ "/" ++ string_of_Z (maxSteps this) ++ ".")%string
           "alert alert-warning"%string
       else stopped;
     activeTimers := clearInterval (simulationInterval this) (activeTimers p);
     nextTimerId := nextTimerId p;
     btnSimPlay_textContent := "Play"%string |}.

(** The events of the page. *)
Inductive event : Type :=
| InitSimulation (pvValues evValues : list num)
    (actualTime milestoneDuration steps : Z) (scenario : string)
    (replanEnabled : bool)
| ClickStep
| ClickPlay
| ClickStop
| TimerFires (id : Z).

Definition handle (p : page) (e : event) : page :=
  match e with
  | InitSimulation pv ev actualTime md steps scen replan =>
      page_initSimulation p pv ev actualTime md steps scen replan
  | ClickStep => page_runStep p
  | ClickPlay => startAutoPlay p
  | ClickStop => stopSimulation p
  | TimerFires id => intervalCallback p id
  end.

(** The page after a sequence of events. *)
Definition handle_all (p : page) (es : list event) : page :=
  fold_left handle es p.

(** The firing of the timer of the autoplay, if there is one. *)
Definition fire (p : page) : page :=
  match simulationInterval (esSimulation p) with
  | Some id => intervalCallback p id
  | None => p
  end.

Fixpoint fires (n : nat) (p : page) : page :=
  match n with
  | O => p
  | S n' => fires n' (fire p)
  end.

(* ================================================================== *)
(** ** ESSimulation.generateAIAnalysis: the trend sentence *)

(** The sentence [trendAnalysis] built in [generateAIAnalysis] outside the
    initial analysis; [None] stands for the TypeError raised when the log
    has no record at index [currentStep - 2]. *)
Definition trendAnalysis (this : sim) : option string :=
  let spiT := parseFloat (prop_string (SPI_t (currentMetrics this))) in
  if currentStep this >? 1 then
    match nth_error (metrics (simulationResults this))
            (Z.to_nat (currentStep this - 2)) with
    | None => None
    | Some previous =>
        let prevSpiT := parseFloat (prop_string (SPI_t previous)) in
        Some
          (if (spiT >? prevSpiT)%num then
             "Performance is improving (SPI(t) increased from "
             ++ toFixed 2 prevSpiT ++ " to " ++ toFixed 2 spiT ++ ")."
           else if (spiT <? prevSpiT)%num then
             "Performance is declining (SPI(t) decreased from "
             ++ toFixed 2 prevSpiT ++ " to " ++ toFixed 2 spiT ++ ")."
           else
             "Performance is stable at SPI(t) = " ++ toFixed 2 spiT
             ++ ".")%string
    end
  else Some EmptyString.

(* ================================================================== *)
(** ** Definitions used to state the properties *)

(** Index of the first entry greater than [ev]. *)
Fixpoint first_gt (ev : Q) (l : list Q) : option nat :=
  match l with
  | [] => None
  | p :: r => if Qltb ev p then Some O else option_map S (first_gt ev r)
  end.

(** The value of [calculateEarnedSchedule] on rationals, by the position
    of the first planned value above [ev]. *)
Definition es_q (ev : Q) (pv : list Q) : Q :=
  match first_gt ev pv with
  | None => inject_Z (alen pv)
  | Some O => 0%Q
  | Some (S c) =>
      let pc := nth c pv 0%Q in
      if Qltb (Qabs (pc - ev)) (1 # 1000000000)
      then inject_Z (Z.of_nat c + 1)
      else (inject_Z (Z.of_nat c + 1) + (ev - pc) / (nth (S c) pv 0 - pc))%Q
  end.

(** The number of entries before the first one greater than [ev]. *)
Definition pos_gt (ev : Q) (l : list Q) : nat :=
  match first_gt ev l with
  | Some k => k
  | None => List.length l
  end.

(** A series that never decreases from one period to the next. *)
Fixpoint nondecreasing (l : list Q) : bool :=
  match l with
  | a :: (b :: _) as r => Qle_bool a b && nondecreasing r
  | _ => true
  end.

(** The greatest index [C] with [pvCum[C] <= evCum], looking at every
    entry; [i] is the index of the head and [best] the greatest found
    before it. *)
Fixpoint greatest_le (evCum : Q) (pvCum : list Q) (i : nat)
  (best : option nat) : option nat :=
  match pvCum with
  | [] => best
  | p :: r =>
      greatest_le evCum r (S i) (if Qle_bool p evCum then Some i else best)
  end.

(** The rule for ES as the specification words it: 0 without such a [C];
    [C + 1] at the last index or within 1e-9 of [pvCum[C]]; otherwise
    [C + 1] plus the fraction, which is 0 for a denominator below 1e-9. *)
Definition ES_rule (evCum : Q) (pvCum : list Q) : Q :=
  match greatest_le evCum pvCum 0 None with
  | None => 0%Q
  | Some C =>
      let PV_C := nth C pvCum 0%Q in
      let PV_next := nth (S C) pvCum 0%Q in
      if (C =? List.length pvCum - 1)%nat
         || Qltb (Qabs (PV_C - evCum)) (1 # 1000000000)
      then inject_Z (Z.of_nat C + 1)
      else
        (inject_Z (Z.of_nat C + 1)
         + (if Qltb (Qabs (PV_next - PV_C)) (1 # 1000000000) then 0
            else (evCum - PV_C) / (PV_next - PV_C)))%Q
  end.

(** The rational nearest to [q] with [f] decimals, a tie going away from
    zero: the value that [toFixed(f)] prints. *)
Definition round_fixed (f : nat) (q : Q) : Q :=
  let p := 10 ^ Z.of_nat f in
  let n := Qfloor (Qabs q * inject_Z p + (1 # 2))%Q in
  ((if Qltb q 0 then - inject_Z n else inject_Z n) / inject_Z p)%Q.

(** The value of a run of digits read after [a]. *)
Fixpoint dval (s : string) (a : Z) : Z :=
  match s with
  | String c r =>
      match digit_val c with
      | Some d => dval r (10 * a + d)
      | None => a
      end
  | EmptyString => a
  end.

Fixpoint is_digits (s : string) : bool :=
  match s with
  | String c r =>
      match digit_val c with
      | Some _ => is_digits r
      | None => false
      end
  | EmptyString => true
  end.

(** A string that does not continue a run of digits. *)
Definition stops_digits (s : string) : bool :=
  match s with
  | String c _ =>
      match digit_val c with
      | Some _ => false
      | None => true
      end
  | EmptyString => true
  end.

(** The value that [runStep] appends to the EV array. *)
Definition nextEV (this : sim) : num :=
  let nextPeriod := currentAT this + 1 in
  let PV := extendPV (currentPV this) nextPeriod in
  let pvIncrement :=
    (to_number (aget PV nextPeriod)
     - to_number (aget PV (nextPeriod - 1)))%num in
  let currentSPIt :=
    parseFloat (prop_string (SPI_t (currentMetrics this))) in
  (to_number (alast (currentEV this))
   + targetSPIt (scenario this) currentSPIt * pvIncrement)%num.

(** The target SPI(t) of a scenario as the specification gives it, on
    rationals: the lesser of 1.0 and the previous SPI(t) plus 0.05 under
    "recovery", the greater of 0.7 and the previous SPI(t) minus 0.03 under
    "slippage", the previous SPI(t) otherwise. *)
Definition target_rule (scenario : string) (previousSPIt : Q) : Q :=
  if String.eqb scenario "recovery" then
    Qmin 1 (previousSPIt + (5 # 100))%Q
  else if String.eqb scenario "slippage" then
    Qmax (7 # 10) (previousSPIt - (3 # 100))%Q
  else previousSPIt.

(** A project one period short of its plan, used in the examples. *)
Definition demo_PV : list num := qs [10; 25; 45; 70]%Q.
Definition demo_EV : list num := qs [8; 20; 30; 38]%Q.

Definition demo_sim (steps : Z) (scenario : string) (replan : bool) : sim :=
  initSimulation (constructor "" "") demo_PV demo_EV 3 10 steps scenario
    replan.

(** The step counter and the four arrays of the log move together. *)
Definition log_in_step (s : sim) : Prop :=
  0 <= currentStep s <= maxSteps s /\
  alen (periods (simulationResults s)) = currentStep s /\
  alen (pvValues (simulationResults s)) = currentStep s /\
  alen (evValues (simulationResults s)) = currentStep s /\
  alen (metrics (simulationResults s)) = currentStep s.


(* ================================================================== *)
(** ** Definitions used to state further properties *)

(** Index of the first entry of an array that compares greater than
    [ev]. *)
Fixpoint first_above (ev : num) (l : list num) : option nat :=
  match l with
  | [] => None
  | p :: r =>
      if (p >? ev)%num then Some O else option_map S (first_above ev r)
  end.

(** A series that grows from each period to the next. *)
Fixpoint increasing (l : list Q) : bool :=
  match l with
  | a :: (b :: _) as r => Qltb a b && increasing r
  | _ => true
  end.

(** The period indices [AT + 1, ..., AT + k]. *)
Definition periods_from (AT : Z) (k : Z) : list Z :=
  map (fun i => AT + Z.of_nat i) (seq 1 (Z.to_nat k)).

(** What a run of the simulation keeps from its initialisation: the
    parameters, the period pointer in step with the counter, the periods
    logged, and the series, which only grow at the end. *)
Definition run_inv (pv ev : list num) (AT md steps : Z) (scen : string)
  (rt : option Z) (s : sim) : Prop :=
  maxSteps s = steps /\
  0 <= currentStep s <= steps /\
  scenario s = scen /\
  milestoneDuration s = md /\
  replanTime s = rt /\
  initialPV s = pv /\ initialEV s = ev /\ initialAT s = AT /\
  currentAT s = AT + currentStep s /\
  periods (simulationResults s) = periods_from AT (currentStep s) /\
  currentEV s = ev ++ evValues (simulationResults s) /\
  (exists ext, currentPV s = pv ++ ext /\ alen ext <= currentStep s) /\
  currentMetrics s
  = calculateMetrics (currentPV s) (currentEV s) (currentAT s)
      (Some md) rt.

(** The PV array covers the current period and no PV logged is
    [undefined]. *)
Definition covered (s : sim) : Prop :=
  0 <= currentAT s /\
  currentAT s + 1 <= alen (currentPV s) /\
  ~ In None (pvValues (simulationResults s)).

(** The discipline of the autoplay timer: the only active timer is the
    one the object holds, the object is running exactly when it holds
    one, and identifiers are positive and below the next one. *)
Definition timers_ok (p : page) : Prop :=
  activeTimers p
  = match simulationInterval (esSimulation p) with
    | Some id => [id]
    | None => []
    end /\
  isRunning (esSimulation p)
  = match simulationInterval (esSimulation p) with
    | Some _ => true
    | None => false
    end /\
  (forall id, simulationInterval (esSimulation p) = Some id ->
              0 < id < nextTimerId p) /\
  0 < nextTimerId p.

(** The part of the object that the timer and the status line do not
    touch. *)
Definition sim_data (s : sim) :
  Z * Z * string * Z * option Z * list num * list num * Z
  * metrics_record * results :=
  (currentStep s, maxSteps s, scenario s, milestoneDuration s, replanTime s,
   currentPV s, currentEV s, currentAT s, currentMetrics s,
   simulationResults s).

(** A page with a simulation of two steps, used in the examples. *)
Definition demo_page : page :=
  page_initSimulation (new_page "" "" "Play") demo_PV demo_EV 3 10 2
    "recovery" false.
#[global] Instance num_eq_Equivalence : RelationClasses.Equivalence num_eq.
Proof.
  split.
  - intros [a| | |]; simpl; auto. reflexivity.
  - intros [a| | |] [b| | |]; simpl; auto. intro H; now symmetry.
  - intros [a| | |] [b| | |] [c| | |]; simpl; auto; try tauto.
    intros H1 H2. now rewrite H1.
Qed.

(* ================================================================== *)
(** ** The planned-value scan on series of rationals *)

Section Scan.

Local Open Scope Q_scope.

Lemma Qltb_lt (a b : Q) : Qltb a b = true <-> a < b.
Proof.
  unfold Qltb. rewrite negb_true_iff, <- not_true_iff_false, Qle_bool_iff.
  split; intro H; [apply Qnot_le_lt | apply Qlt_not_le]; exact H.
Qed.

Lemma Qltb_ge (a b : Q) : Qltb a b = false <-> b <= a.
Proof.
  unfold Qltb. rewrite negb_false_iff. apply Qle_bool_iff.
Qed.

Lemma first_gt_some (ev : Q) (l : list Q) (j : nat) :
  first_gt ev l = Some j ->
  (j < List.length l)%nat /\ ev < nth j l 0 /\
  forall k, (k < j)%nat -> nth k l 0 <= ev.
Proof.
  revert j. induction l as [|p r IH]; intros j; simpl; [discriminate|].
  destruct (Qltb ev p) eqn:E.
  - intros [= <-]. repeat split; [lia | now apply Qltb_lt | intros k Hk; lia].
  - destruct (first_gt ev r) as [j'|]; simpl; [|discriminate].
    intros [= <-]. destruct (IH j' eq_refl) as (Hl & Hg & Hb).
    repeat split; [lia | exact Hg |].
    intros [|k] Hk; [now apply Qltb_ge | apply Hb; lia].
Qed.

Lemma scan_C_fin (ev : Q) (rest : list Q) :
  forall (i len : Z), len = (i + alen rest)%Z ->
  scan_C len (Fin ev) (qs rest) i None =
  match first_gt ev rest with
  | Some j => Some (i + Z.of_nat j - 1)%Z
  | None => match rest with [] => None | _ => Some (len - 1)%Z end
  end.
Proof.
  induction rest as [|p r IH]; intros i len Hlen; [reflexivity|].
  unfold alen in Hlen. simpl List.length in Hlen.
  simpl. unfold gtb. simpl ltb.
  destruct (Qltb ev p) eqn:E.
  - f_equal. lia.
  - destruct (Z.eqb_spec i (len - 1)) as [Hi|Hi].
    + destruct r; [simpl; f_equal; lia | simpl List.length in Hlen; lia].
    + rewrite (IH (i + 1)%Z len) by (unfold alen; lia).
      destruct (first_gt ev r) as [j|]; simpl.
      * f_equal. lia.
      * destruct r; [simpl List.length in Hlen; lia | reflexivity].
Qed.

(** No entry compares greater than [ev] (as for NaN and +Infinity). *)
Lemma scan_C_never (ev : num) (rest : list num) :
  (forall p, In p rest -> (p >? ev)%num = false) ->
  forall (i len : Z), len = (i + alen rest)%Z ->
  scan_C len ev rest i None =
  match rest with [] => None | _ => Some (len - 1)%Z end.
Proof.
  induction rest as [|p r IH]; intros Hall i len Hlen; [reflexivity|].
  unfold alen in Hlen. simpl List.length in Hlen.
  simpl. rewrite (Hall p) by now left.
  destruct (Z.eqb_spec i (len - 1)) as [Hi|Hi].
  - destruct r; [simpl; f_equal; lia | simpl List.length in Hlen; lia].
  - rewrite (IH (fun q Hq => Hall q (or_intror Hq)) (i + 1)%Z len)
      by (unfold alen; lia).
    destruct r; [simpl List.length in Hlen; lia | reflexivity].
Qed.

Lemma aget_qs (l : list Q) (k : nat) :
  (k < List.length l)%nat ->
  aget (qs l) (Z.of_nat k) = Some (Fin (nth k l 0)).
Proof.
  intro Hk. unfold aget.
  destruct (Z.ltb_spec (Z.of_nat k) 0) as [H|_]; [lia|].
  rewrite Nat2Z.id. unfold qs.
  rewrite nth_error_map, (nth_error_nth' l 0 Hk). reflexivity.
Qed.

Lemma abs_sub_fin (a b : Q) :
  abs (Fin a - Fin b)%num = Fin (Qabs (a - b)).
Proof. reflexivity. Qed.

Lemma ltb_fin (a b : Q) : (Fin a <? Fin b)%num = Qltb a b.
Proof. reflexivity. Qed.

Lemma div_sub_fin (a b c d : Q) :
  ~ c - d == 0 ->
  ((Fin a - Fin b) / (Fin c - Fin d))%num = Fin ((a - b) / (c - d)).
Proof.
  intro H. unfold sub, neg, add, div.
  change (c + - d) with (c - d).
  destruct (Qeq_bool (c - d) 0) eqn:E; [|reflexivity].
  apply Qeq_bool_iff in E. contradiction.
Qed.

Lemma calculateEarnedSchedule_fin (ev : Q) (pv : list Q) :
  (calculateEarnedSchedule (Some (Fin ev)) (qs pv) == Fin (es_q ev pv))%num.
Proof.
  unfold calculateEarnedSchedule, es_q. simpl to_number.
  rewrite (scan_C_fin ev pv 0 (alen (qs pv)))
    by (unfold alen, qs; rewrite length_map; lia).
  assert (Hlen : alen (qs pv) = alen pv)
    by (unfold alen, qs; now rewrite length_map).
  destruct (first_gt ev pv) as [[|c]|] eqn:Hf.
  - simpl. reflexivity.
  - destruct (first_gt_some _ _ _ Hf) as (Hl & Hg & Hb).
    replace (0 + Z.of_nat (S c) - 1)%Z with (Z.of_nat c) by lia.
    destruct (Z.ltb_spec (Z.of_nat c) 0) as [H|_]; [lia|].
    destruct (Z.eqb_spec (Z.of_nat c) (alen (qs pv) - 1)) as [H|_];
      [rewrite Hlen in H; unfold alen in H; lia|].
    rewrite (aget_qs pv c) by lia.
    replace (Z.of_nat c + 1)%Z with (Z.of_nat (S c)) by lia.
    rewrite (aget_qs pv (S c)) by lia.
    cbn [to_number orb]. cbv zeta.
    assert (Hc : nth c pv 0 <= ev) by (apply Hb; lia).
    rewrite !abs_sub_fin. unfold eps, gtb. rewrite !ltb_fin.
    destruct (Qltb (Qabs (nth c pv 0 - ev)) (1 # 1000000000)) eqn:Hsnap.
    + reflexivity.
    + apply Qltb_ge in Hsnap.
      assert (Hd : 1 # 1000000000 <= ev - nth c pv 0).
      { rewrite Qabs_neg in Hsnap by lra. lra. }
      assert (Hgap : (1 # 1000000000) < nth (S c) pv 0 - nth c pv 0) by lra.
      assert (Hab : Qltb (1 # 1000000000) (Qabs (nth (S c) pv 0 - nth c pv 0))
                    = true).
      { apply Qltb_lt. rewrite Qabs_pos by lra. exact Hgap. }
      rewrite Hab, div_sub_fin by lra. reflexivity.
  - destruct pv as [|p r]; [reflexivity|].
    destruct (Z.ltb_spec (alen (qs (p :: r)) - 1) 0) as [H|_];
      [rewrite Hlen in H; unfold alen in H; simpl List.length in H; lia|].
    rewrite Z.eqb_refl. cbn [orb]. unfold of_Z, num_eq.
    replace (alen (qs (p :: r)) - 1 + 1)%Z with (alen (p :: r)) by lia.
    reflexivity.
Qed.

(** The result for an earned value that is not a rational: NaN (also the
    value of [undefined]) and +Infinity are above no entry, -Infinity is
    below all of them. *)
Lemma calculateEarnedSchedule_nonfin (evCum : jsval) (pv : list Q) :
  pv <> [] ->
  match to_number evCum with
  | Fin _ => True
  | NInf => calculateEarnedSchedule evCum (qs pv) = of_Z 0
  | _ => calculateEarnedSchedule evCum (qs pv) = of_Z (alen pv)
  end.
Proof.
  intro Hne.
  assert (Hlen : alen (qs pv) = alen pv)
    by (unfold alen, qs; now rewrite length_map).
  assert (Hpos : (0 < alen pv)%Z)
    by (destruct pv; [congruence | unfold alen; simpl List.length; lia]).
  assert (Hnever : forall ev, (forall p, (Fin p >? ev)%num = false) ->
            calculateEarnedSchedule (Some ev) (qs pv) = of_Z (alen pv)).
  { intros ev Hev. unfold calculateEarnedSchedule. simpl to_number.
    assert (Hs : scan_C (alen (qs pv)) ev (qs pv) 0 None
                 = Some (alen pv - 1)%Z).
    { rewrite (scan_C_never ev (qs pv)) with (i := 0%Z) (len := alen (qs pv)).
      - rewrite Hlen. destruct pv; [congruence | reflexivity].
      - intros p Hp. apply in_map_iff in Hp. destruct Hp as (q & <- & _).
        apply Hev.
      - lia. }
    rewrite Hs, Hlen.
    destruct (Z.ltb_spec (alen pv - 1) 0) as [H|_]; [lia|].
    rewrite Z.eqb_refl. cbn [orb]. f_equal. lia. }
  destruct evCum as [[q| | |]|]; simpl to_number.
  - exact I.
  - apply Hnever. reflexivity.
  - unfold calculateEarnedSchedule. simpl to_number.
    destruct pv as [|p r]; [congruence|]. reflexivity.
  - apply Hnever. reflexivity.
  - apply (Hnever NaN). reflexivity.
Qed.

Lemma pos_gt_le_length (ev : Q) (l : list Q) :
  (pos_gt ev l <= List.length l)%nat.
Proof.
  unfold pos_gt. destruct (first_gt ev l) as [k|] eqn:E; [|lia].
  apply first_gt_some in E. lia.
Qed.

(** The result lies in the period that holds the earned value. *)
Lemma es_q_segment (ev : Q) (pv : list Q) :
  inject_Z (Z.of_nat (pos_gt ev pv)) <= es_q ev pv /\
  es_q ev pv < inject_Z (Z.of_nat (pos_gt ev pv)) + 1 /\
  es_q ev pv <= inject_Z (alen pv).
Proof.
  unfold es_q, pos_gt, alen.
  destruct (first_gt ev pv) as [[|c]|] eqn:Hf.
  - change (inject_Z (Z.of_nat 0)) with 0.
    split; [lra | split; [lra |]].
    change 0 with (inject_Z 0). rewrite <- Zle_Qle. lia.
  - destruct (first_gt_some _ _ _ Hf) as (Hl & Hg & Hb).
    assert (Hc : nth c pv 0 <= ev) by (apply Hb; lia).
    assert (HS : inject_Z (Z.of_nat (S c)) == inject_Z (Z.of_nat c + 1)).
    { apply inject_Z_injective. lia. }
    assert (HL : inject_Z (Z.of_nat c + 1) + 1
                 <= inject_Z (Z.of_nat (List.length pv))).
    { change 1 with (inject_Z 1). rewrite <- inject_Z_plus, <- Zle_Qle.
      lia. }
    cbv zeta. rewrite HS.
    destruct (Qltb (Qabs (nth c pv 0 - ev)) (1 # 1000000000)) eqn:Hsnap.
    + split; [lra | split; lra].
    + set (d := nth (S c) pv 0 - nth c pv 0).
      assert (Hd : 0 < d) by (unfold d; lra).
      assert (H0 : 0 <= (ev - nth c pv 0) / d).
      { apply Qle_shift_div_l; [exact Hd | lra]. }
      assert (H1 : (ev - nth c pv 0) / d < 1).
      { apply Qlt_shift_div_r; [exact Hd | unfold d; lra]. }
      split; [lra | split; lra].
  - split; [lra | split; lra].
Qed.

Lemma pos_gt_mono (ev1 ev2 : Q) (l : list Q) :
  ev1 <= ev2 -> (pos_gt ev1 l <= pos_gt ev2 l)%nat.
Proof.
  intro Hle. unfold pos_gt. induction l as [|p r IH]; simpl; [lia|].
  destruct (Qltb ev1 p) eqn:E1; [lia|].
  destruct (Qltb ev2 p) eqn:E2.
  - apply Qltb_ge in E1. apply Qltb_lt in E2. lra.
  - destruct (first_gt ev1 r), (first_gt ev2 r); simpl in *; lia.
Qed.

(** Monotonicity of the result in the earned value, for any series. *)
Lemma es_q_mono (ev1 ev2 : Q) (pv : list Q) :
  ev1 <= ev2 -> es_q ev1 pv <= es_q ev2 pv.
Proof.
  intro Hle.
  pose proof (pos_gt_mono ev1 ev2 pv Hle) as Hpos.
  destruct (es_q_segment ev1 pv) as (L1 & U1 & _).
  destruct (es_q_segment ev2 pv) as (L2 & U2 & _).
  destruct (Nat.eq_dec (pos_gt ev1 pv) (pos_gt ev2 pv)) as [Heq|Hne].
  - clear L1 U1 L2 U2 Hpos. unfold es_q, pos_gt in *.
    destruct (first_gt ev1 pv) as [[|c1]|] eqn:H1;
      destruct (first_gt ev2 pv) as [[|c2]|] eqn:H2;
      try (apply first_gt_some in H1; lia);
      try (apply first_gt_some in H2; lia);
      try lra.
    injection Heq as ->.
    destruct (first_gt_some _ _ _ H1) as (Hl & Hg1 & Hb1).
    destruct (first_gt_some _ _ _ H2) as (_ & Hg2 & Hb2).
    assert (Hc : nth c2 pv 0 <= ev1) by (apply Hb1; lia).
    cbv zeta.
    destruct (Qltb (Qabs (nth c2 pv 0 - ev1)) (1 # 1000000000)) eqn:S1;
      destruct (Qltb (Qabs (nth c2 pv 0 - ev2)) (1 # 1000000000)) eqn:S2.
    + lra.
    + set (d := nth (S c2) pv 0 - nth c2 pv 0).
      assert (Hd : 0 < d) by (unfold d; lra).
      assert (H0 : 0 <= (ev2 - nth c2 pv 0) / d)
        by (apply Qle_shift_div_l; [exact Hd | lra]).
      lra.
    + apply Qltb_ge in S1. apply Qltb_lt in S2.
      rewrite Qabs_neg in S1 by lra. rewrite Qabs_neg in S2 by lra. lra.
    + set (d := nth (S c2) pv 0 - nth c2 pv 0).
      assert (Hd : 0 < d) by (unfold d; lra).
      apply Qplus_le_r. unfold Qdiv. apply Qmult_le_compat_r; [lra|].
      apply Qlt_le_weak, Qinv_lt_0_compat, Hd.
  - assert (Hlt : inject_Z (Z.of_nat (pos_gt ev1 pv)) + 1
                  <= inject_Z (Z.of_nat (pos_gt ev2 pv))).
    { change 1 with (inject_Z 1). rewrite <- inject_Z_plus, <- Zle_Qle. lia. }
    lra.
Qed.

(** *** Non-decreasing series *)

Lemma nondecreasing_tail (a : Q) (r : list Q) :
  nondecreasing (a :: r) = true -> nondecreasing r = true.
Proof.
  destruct r as [|b r']; [reflexivity|].
  cbn [nondecreasing]. intro H. apply andb_prop in H. exact (proj2 H).
Qed.

Lemma nondecreasing_head (a : Q) (r : list Q) :
  nondecreasing (a :: r) = true -> forall x, In x r -> a <= x.
Proof.
  revert a. induction r as [|b r' IH]; intros a H x Hx; [destruct Hx|].
  pose proof (nondecreasing_tail _ _ H) as Ht.
  cbn [nondecreasing] in H. apply andb_prop in H. destruct H as [Hab _].
  apply Qle_bool_iff in Hab.
  destruct Hx as [<-|Hx]; [exact Hab|].
  apply Qle_trans with b; [exact Hab | now apply IH].
Qed.

Lemma nondecreasing_last (l : list Q) :
  nondecreasing l = true -> forall x, In x l -> x <= last l 0.
Proof.
  induction l as [|a r IH]; intros H x Hx; [destruct Hx|].
  destruct r as [|b r'].
  - destruct Hx as [<-|[]]. apply Qle_refl.
  - pose proof (nondecreasing_tail _ _ H) as Ht.
    change (last (a :: b :: r') 0) with (last (b :: r') 0).
    destruct Hx as [<-|Hx]; [|now apply IH].
    apply Qle_trans with b.
    + apply (nondecreasing_head _ _ H). now left.
    + apply IH; [exact Ht | now left].
Qed.

Lemma first_gt_all_le (ev : Q) (l : list Q) :
  (forall x, In x l -> x <= ev) -> first_gt ev l = None.
Proof.
  induction l as [|p r IH]; intro H; [reflexivity|].
  simpl. destruct (Qltb ev p) eqn:E.
  - apply Qltb_lt in E. specialize (H p (or_introl eq_refl)). lra.
  - rewrite IH; [reflexivity | intros x Hx; apply H; now right].
Qed.

(** *** The greatest index at or below the earned value *)

Lemma greatest_le_all_gt (ev : Q) (l : list Q) :
  (forall x, In x l -> ev < x) ->
  forall i best, greatest_le ev l i best = best.
Proof.
  induction l as [|p r IH]; intros H i best; [reflexivity|].
  simpl. destruct (Qle_bool p ev) eqn:E.
  - apply Qle_bool_iff in E. specialize (H p (or_introl eq_refl)). lra.
  - apply IH. intros x Hx. apply H. now right.
Qed.

Lemma greatest_le_sorted (ev : Q) (l : list Q) :
  nondecreasing l = true ->
  forall i best,
  greatest_le ev l i best =
  match first_gt ev l with
  | Some O => best
  | Some (S c) => Some (i + c)%nat
  | None => match l with
            | [] => best
            | _ => Some (i + List.length l - 1)%nat
            end
  end.
Proof.
  induction l as [|p r IH]; intros Hs i best; [reflexivity|].
  pose proof (nondecreasing_tail _ _ Hs) as Ht.
  pose proof (nondecreasing_head _ _ Hs) as Hh.
  cbn [greatest_le first_gt].
  destruct (Qltb ev p) eqn:E.
  - assert (Hp : Qle_bool p ev = false).
    { apply not_true_iff_false. rewrite Qle_bool_iff.
      apply Qltb_lt in E. lra. }
    rewrite Hp. apply greatest_le_all_gt.
    intros x Hx. apply Qltb_lt in E. specialize (Hh x Hx). lra.
  - assert (Hp : Qle_bool p ev = true).
    { apply Qle_bool_iff. now apply Qltb_ge. }
    rewrite Hp, (IH Ht).
    destruct (first_gt ev r) as [[|c]|]; simpl.
    + f_equal. lia.
    + f_equal. lia.
    + destruct r; simpl; f_equal; lia.
Qed.

(** On a non-decreasing series the rule of the specification and the scan
    of the code agree. *)
Lemma ES_rule_sorted (ev : Q) (pv : list Q) :
  nondecreasing pv = true -> ES_rule ev pv == es_q ev pv.
Proof.
  intro Hs. unfold ES_rule, es_q.
  rewrite (greatest_le_sorted ev pv Hs).
  destruct (first_gt ev pv) as [[|c]|] eqn:Hf.
  - reflexivity.
  - destruct (first_gt_some _ _ _ Hf) as (Hl & Hg & Hb).
    assert (Hc : nth c pv 0 <= ev) by (apply Hb; lia).
    cbn [Nat.add]. cbv zeta.
    destruct (Nat.eqb_spec c (List.length pv - 1)) as [H|_]; [lia|].
    cbn [orb].
    destruct (Qltb (Qabs (nth c pv 0 - ev)) (1 # 1000000000)) eqn:Hsnap;
      [reflexivity|].
    apply Qltb_ge in Hsnap. rewrite Qabs_neg in Hsnap by lra.
    assert (Hd : Qltb (Qabs (nth (S c) pv 0 - nth c pv 0)) (1 # 1000000000)
                 = false).
    { apply Qltb_ge. rewrite Qabs_pos by lra. lra. }
    rewrite Hd. reflexivity.
  - destruct pv as [|p r]; [reflexivity|].
    cbn [Nat.add]. cbv zeta. rewrite Nat.eqb_refl. cbn [orb].
    unfold alen. apply inject_Z_injective. simpl List.length. lia.
Qed.

End Scan.

(* ================================================================== *)
(** ** Printing and reading decimal strings *)

Section Decimal.

Local Open Scope Z_scope.

Lemma digit_val_char (d : Z) :
  0 <= d < 10 -> digit_val (digit_char d) = Some d.
Proof.
  intro H.
  assert (Hd : d = 0 \/ d = 1 \/ d = 2 \/ d = 3 \/ d = 4 \/ d = 5 \/ d = 6
               \/ d = 7 \/ d = 8 \/ d = 9) by lia.
  repeat (destruct Hd as [->|Hd]; [reflexivity|]). subst d. reflexivity.
Qed.

Lemma append_length (s t : string) :
  String.length (s ++ t) = (String.length s + String.length t)%nat.
Proof.
  induction s as [|c s IH]; simpl; [reflexivity | now rewrite IH].
Qed.

Lemma read_digits_run (D : string) :
  is_digits D = true ->
  forall rest a c, stops_digits rest = true ->
  read_digits (D ++ rest) a c = (dval D a, (c + String.length D)%nat, rest).
Proof.
  induction D as [|ch D IH]; intros HD rest a c Hrest.
  - simpl. rewrite Nat.add_0_r.
    destruct rest as [|ch r]; [reflexivity|].
    simpl in Hrest. simpl. destruct (digit_val ch); [discriminate | reflexivity].
  - simpl in HD. simpl. destruct (digit_val ch) as [d|]; [|discriminate].
    rewrite (IH HD) by exact Hrest. f_equal. f_equal. lia.
Qed.

Lemma read_digits_all (D : string) :
  is_digits D = true ->
  forall a c,
  read_digits D a c = (dval D a, (c + String.length D)%nat, EmptyString).
Proof.
  induction D as [|ch D IH]; intros HD a c.
  - simpl. now rewrite Nat.add_0_r.
  - simpl in HD. simpl. destruct (digit_val ch) as [d|]; [|discriminate].
    rewrite (IH HD). f_equal. f_equal. lia.
Qed.

Lemma is_digits_digits_aux (fuel : nat) :
  forall n acc, is_digits acc = true ->
  is_digits (digits_aux fuel n acc) = true.
Proof.
  induction fuel as [|fuel IH]; intros n acc Hacc; [exact Hacc|].
  simpl.
  assert (Hd : is_digits (String (digit_char (n mod 10)) acc) = true).
  { simpl. rewrite digit_val_char by (apply Z.mod_pos_bound; lia).
    exact Hacc. }
  destruct (n / 10 =? 0); [exact Hd | now apply IH].
Qed.

Lemma dval_digits_aux (fuel : nat) :
  forall n acc, 0 <= n < 10 ^ Z.of_nat fuel ->
  dval (digits_aux fuel n acc) 0 = dval acc n.
Proof.
  induction fuel as [|fuel IH]; intros n acc Hn.
  - simpl in *. f_equal. lia.
  - cbn [digits_aux]. cbv zeta.
    assert (Hm : 0 <= n mod 10 < 10) by (apply Z.mod_pos_bound; lia).
    destruct (Z.eqb_spec (n / 10) 0) as [H0|H0].
    + cbn [dval]. rewrite digit_val_char by exact Hm. f_equal.
      pose proof (Z.div_mod n 10). lia.
    + rewrite IH.
      * cbn [dval]. rewrite digit_val_char by exact Hm. f_equal.
        pose proof (Z.div_mod n 10). lia.
      * rewrite Nat2Z.inj_succ, Z.pow_succ_r in Hn by lia.
        split; [apply Z.div_pos; lia|].
        apply Z.div_lt_upper_bound; lia.
Qed.

Lemma length_digits_aux (fuel : nat) :
  forall n acc j, 0 <= n < 10 ^ Z.of_nat (S j) ->
  (String.length (digits_aux fuel n acc) <= String.length acc + S j)%nat.
Proof.
  induction fuel as [|fuel IH]; intros n acc j Hn; [simpl; lia|].
  cbn [digits_aux]. cbv zeta.
  destruct (Z.eqb_spec (n / 10) 0) as [H0|H0]; [simpl; lia|].
  destruct j as [|j].
  - change (10 ^ Z.of_nat 1) with 10 in Hn.
    rewrite Z.div_small in H0 by lia. congruence.
  - eapply Nat.le_trans; [apply (IH _ _ j)|simpl; lia].
    rewrite Nat2Z.inj_succ, Z.pow_succ_r in Hn by lia.
    split; [apply Z.div_pos; lia|].
    apply Z.div_lt_upper_bound; lia.
Qed.

Lemma digits_aux_head (fuel : nat) :
  forall n acc, exists d r,
    0 <= d < 10 /\ digits_aux (S fuel) n acc = String (digit_char d) r.
Proof.
  induction fuel as [|fuel IH]; intros n acc.
  - exists (n mod 10), acc. split; [apply Z.mod_pos_bound; lia|].
    simpl. destruct (n / 10 =? 0); reflexivity.
  - change (digits_aux (S (S fuel)) n acc)
      with (if n / 10 =? 0 then String (digit_char (n mod 10)) acc
            else digits_aux (S fuel) (n / 10)
                   (String (digit_char (n mod 10)) acc)).
    destruct (n / 10 =? 0).
    + exists (n mod 10), acc. split; [apply Z.mod_pos_bound; lia | reflexivity].
    + apply IH.
Qed.

Lemma log2_fuel (n : Z) : 0 <= n -> n < 10 ^ Z.of_nat (S (Z.to_nat (Z.log2 n))).
Proof.
  intro Hn. rewrite Nat2Z.inj_succ, Z2Nat.id by apply Z.log2_nonneg.
  destruct (Z.eq_dec n 0) as [->|Hz]; [reflexivity|].
  apply Z.lt_le_trans with (2 ^ Z.succ (Z.log2 n)).
  - apply Z.log2_spec. lia.
  - apply Z.pow_le_mono_l. pose proof (Z.log2_nonneg n). lia.
Qed.

Lemma dval_digits (n : Z) : 0 <= n -> dval (digits n) 0 = n.
Proof.
  intro Hn. unfold digits. rewrite dval_digits_aux; [reflexivity|].
  split; [exact Hn | now apply log2_fuel].
Qed.

Lemma is_digits_digits (n : Z) : is_digits (digits n) = true.
Proof. unfold digits. now apply is_digits_digits_aux. Qed.

Lemma length_digits (n : Z) (j : nat) :
  0 <= n < 10 ^ Z.of_nat (S j) -> (String.length (digits n) <= S j)%nat.
Proof.
  intro Hn. unfold digits.
  apply (length_digits_aux _ n EmptyString j Hn).
Qed.

Lemma digits_head (n : Z) :
  exists d r, 0 <= d < 10 /\ digits n = String (digit_char d) r.
Proof. unfold digits. apply digits_aux_head. Qed.

Lemma is_digits_app (s t : string) :
  is_digits s = true -> is_digits t = true -> is_digits (s ++ t) = true.
Proof.
  induction s as [|c s IH]; intros Hs Ht; [exact Ht|].
  simpl in *. destruct (digit_val c); [now apply IH | discriminate].
Qed.

Lemma is_digits_zeros (k : nat) : is_digits (zeros k) = true.
Proof. induction k; [reflexivity | exact IHk]. Qed.

Lemma dval_zeros (k : nat) (s : string) : dval (zeros k ++ s) 0 = dval s 0.
Proof. induction k; [reflexivity | exact IHk]. Qed.

Lemma length_zeros (k : nat) : String.length (zeros k) = k.
Proof. induction k; simpl; [reflexivity | now rewrite IHk]. Qed.

Lemma length_pad (f : nat) (s : string) :
  (String.length s <= f)%nat -> String.length (pad f s) = f.
Proof.
  intro H. unfold pad. rewrite append_length, length_zeros. lia.
Qed.

(** What a digit at the head of a string means for [parseFloat]. *)
Lemma head_digit (c : ascii) (d : Z) (r : string) :
  digit_val c = Some d ->
  skip_ws (String c r) = String c r /\
  read_sign (String c r) = (false, String c r) /\
  String.prefix "Infinity" (String c r) = false.
Proof.
  intro H.
  assert (Hcode : (48 <=? Z.of_nat (nat_of_ascii c))
                  && (Z.of_nat (nat_of_ascii c) <=? 57) = true).
  { unfold digit_val in H.
    destruct ((48 <=? Z.of_nat (nat_of_ascii c))
              && (Z.of_nat (nat_of_ascii c) <=? 57));
      [reflexivity | discriminate]. }
  clear H. revert Hcode.
  destruct c as [b0 b1 b2 b3 b4 b5 b6 b7].
  destruct b0, b1, b2, b3, b4, b5, b6, b7; intro Hcode;
    try (vm_compute in Hcode; discriminate Hcode);
    repeat split; reflexivity.
Qed.

(** [parseFloat] on a sign, a run of digits, a point and a run of
    digits. *)
Lemma parseFloat_decimal (neg : bool) (c : ascii) (d : Z) (D F : string) :
  digit_val c = Some d ->
  is_digits (String c D) = true ->
  is_digits F = true ->
  let m := (inject_Z (dval (String c D) 0)
            + inject_Z (dval F 0)
              / inject_Z (10 ^ Z.of_nat (String.length F)))%Q in
  parseFloat ((if neg then "-" else "") ++ String c D ++ String "." F)
  = Fin ((if neg then - m else m) * 1)%Q.
Proof.
  intros Hc HD HF m.
  destruct (head_digit c d (D ++ String "." F) Hc) as (Hws & Hsg & Hpre).
  assert (Hrun : read_digits (String c D ++ String "." F) 0 0
                 = (dval (String c D) 0, String.length (String c D),
                    String "." F)).
  { rewrite read_digits_run; [reflexivity | exact HD | reflexivity]. }
  assert (Hfrac : read_digits F 0 0
                  = (dval F 0, String.length F, EmptyString)).
  { rewrite read_digits_all; [reflexivity | exact HF]. }
  change (String c D ++ String "." F)%string
    with (String c (D ++ String "." F)) in Hrun.
  unfold parseFloat.
  destruct neg.
  - change (("-" ++ String c D ++ String "." F)%string)
      with (String "-" (String c (D ++ String "." F))).
    change (skip_ws (String "-" (String c (D ++ String "." F))))
      with (String "-" (String c (D ++ String "." F))).
    change (read_sign (String "-" (String c (D ++ String "." F))))
      with (true, String c (D ++ String "." F)).
    cbv iota beta. rewrite Hpre, Hrun. cbv iota beta.
    rewrite Hfrac. cbv iota beta. reflexivity.
  - change (("" ++ String c D ++ String "." F)%string)
      with (String c (D ++ String "." F)).
    rewrite Hws, Hsg. cbv iota beta. rewrite Hpre, Hrun. cbv iota beta.
    rewrite Hfrac. cbv iota beta. reflexivity.
Qed.

Lemma Qfloor_nonneg (x : Q) : (0 <= x)%Q -> 0 <= Qfloor x.
Proof.
  intro H. change 0 with (Qfloor (inject_Z 0)).
  apply Qfloor_resp_le. exact H.
Qed.

(** Reading back what [toFixed] printed gives the rounded value. *)
Lemma parseFloat_toFixed (f : nat) (q : Q) :
  (0 < f)%nat ->
  (parseFloat (toFixed f (Fin q)) == Fin (round_fixed f q))%num.
Proof.
  intro Hf. unfold toFixed, round_fixed.
  set (p := 10 ^ Z.of_nat f).
  set (n := Qfloor (Qabs q * inject_Z p + (1 # 2))%Q).
  assert (Hp : 0 < p) by (apply Z.pow_pos_nonneg; lia).
  assert (Hn : 0 <= n).
  { apply Qfloor_nonneg.
    assert (0 <= Qabs q * inject_Z p)%Q.
    { apply Qmult_le_0_compat; [apply Qabs_nonneg|].
      change 0%Q with (inject_Z 0). rewrite <- Zle_Qle. lia. }
    lra. }
  destruct (Nat.eqb_spec f 0) as [H0|_]; [lia|].
  assert (Hdiv : 0 <= n / p) by (apply Z.div_pos; lia).
  assert (Hmod : 0 <= n mod p < p) by (apply Z.mod_pos_bound; lia).
  destruct (digits_head (n / p)) as (d & r & Hd & HD).
  pose proof (is_digits_digits (n / p)) as HisD.
  pose proof (dval_digits (n / p) Hdiv) as HvD.
  rewrite HD in HisD, HvD. rewrite HD.
  set (F := pad f (digits (n mod p))).
  assert (HisF : is_digits F = true).
  { unfold F, pad. apply is_digits_app;
      [apply is_digits_zeros | apply is_digits_digits]. }
  assert (HvF : dval F 0 = n mod p).
  { unfold F, pad. rewrite dval_zeros. apply dval_digits. lia. }
  assert (HlF : String.length F = f).
  { unfold F. apply length_pad. destruct f as [|j]; [lia|].
    apply length_digits. exact Hmod. }
  change ("." ++ F)%string with (String "." F).
  rewrite (parseFloat_decimal _ _ d r F
             (digit_val_char d Hd) HisD HisF).
  rewrite HvD, HvF, HlF. fold p. unfold num_eq.
  assert (Hpq : ~ (inject_Z p == 0)%Q).
  { change 0%Q with (inject_Z 0). rewrite inject_Z_injective. lia. }
  assert (Hsplit : (inject_Z n
                    == inject_Z p * inject_Z (n / p) + inject_Z (n mod p))%Q).
  { rewrite <- inject_Z_mult, <- inject_Z_plus.
    apply inject_Z_injective. apply Z.div_mod. lia. }
  destruct (Qltb q 0); rewrite Hsplit; field; exact Hpq.
Qed.


End Decimal.

(* ================================================================== *)
(** ** Comparisons and rounding of integers *)

Section Rounding.

Local Open Scope Q_scope.

Lemma leb_gtb (x y : num) : (x <=? y)%num = true -> (x >? y)%num = false.
Proof.
  destruct x as [a| | |], y as [b| | |]; simpl; try discriminate;
    try reflexivity.
  unfold gtb, ltb, Qltb. intros ->. reflexivity.
Qed.



End Rounding.

(* ================================================================== *)
(** ** One step of the simulation *)

Section Step.

Lemma runStep_complete (this : sim) :
  currentStep this >= maxSteps this -> runStep this = report_complete this.
Proof.
  intro H. unfold runStep.
  destruct (Z.geb_spec (currentStep this) (maxSteps this)); [reflexivity|lia].
Qed.

Lemma geb_effective (this : sim) :
  currentStep this < maxSteps this ->
  (currentStep this >=? maxSteps this) = false.
Proof.
  intro H. destruct (Z.geb_spec (currentStep this) (maxSteps this));
    [lia | reflexivity].
Qed.

Lemma runStep_currentStep (this : sim) :
  currentStep this < maxSteps this ->
  currentStep (runStep this) = currentStep this + 1.
Proof. intro H. unfold runStep. now rewrite geb_effective. Qed.

Lemma runStep_maxSteps (this : sim) :
  maxSteps (runStep this) = maxSteps this.
Proof.
  unfold runStep. destruct (currentStep this >=? maxSteps this); reflexivity.
Qed.

Lemma runStep_currentPV (this : sim) :
  currentStep this < maxSteps this ->
  currentPV (runStep this) = extendPV (currentPV this) (currentAT this + 1).
Proof. intro H. unfold runStep. now rewrite geb_effective. Qed.

Lemma runStep_currentEV (this : sim) :
  currentStep this < maxSteps this ->
  currentEV (runStep this) = currentEV this ++ [nextEV this].
Proof. intro H. unfold runStep. now rewrite geb_effective. Qed.

Lemma runStep_currentAT (this : sim) :
  currentStep this < maxSteps this ->
  currentAT (runStep this) = currentAT this + 1.
Proof. intro H. unfold runStep. now rewrite geb_effective. Qed.

Lemma runStep_results (this : sim) :
  currentStep this < maxSteps this ->
  let log := simulationResults this in
  let log' := simulationResults (runStep this) in
  periods log' = periods log ++ [currentAT this + 1] /\
  pvValues log'
  = pvValues log ++ [aget (currentPV (runStep this)) (currentAT this + 1)] /\
  evValues log' = evValues log ++ [nextEV this] /\
  metrics log' = metrics log ++ [currentMetrics (runStep this)].
Proof.
  intro H. unfold runStep. rewrite geb_effective by exact H.
  repeat split; reflexivity.
Qed.

End Step.

(* ================================================================== *)
(** ** Properties of [calculateEarnedSchedule] *)

Section EarnedSchedule.

Local Open Scope Q_scope.

Lemma num_eq_fin_inv (x : num) (q : Q) :
  (x == Fin q)%num -> exists a, x = Fin a /\ a == q.
Proof.
  destruct x as [a| | |]; simpl; try contradiction.
  intro H. now exists a.
Qed.

Lemma leb_of_eq (x y : num) (a b : Q) :
  (x == Fin a)%num -> (y == Fin b)%num -> a <= b -> (x <=? y)%num = true.
Proof.
  intros Hx Hy Hab.
  destruct (num_eq_fin_inv _ _ Hx) as (a' & -> & Ha).
  destruct (num_eq_fin_inv _ _ Hy) as (b' & -> & Hb).
  simpl. apply Qle_bool_iff. rewrite Ha, Hb. exact Hab.
Qed.

(** C10.  On an empty planned-value series the scan does not run, [C]
    stays [null], and the function returns 0, whatever the earned
    value. *)
Theorem C10_empty_series_returns_zero :
  forall evCum : jsval,
    scan_C (alen (@nil num)) (to_number evCum) [] 0 None = None /\
    calculateEarnedSchedule evCum [] = of_Z 0.
Proof.
  intro evCum. split; reflexivity.
Qed.

(** C1, as stated, fails on a series that decreases: for [pvCum = [10; 5]]
    and [evCum = 7] the greatest index with [pvCum[C] <= evCum] is the last
    one and the rule gives 2, while the scan stops at the first entry
    above 7 and the function returns 0. *)
Lemma C1_counterexample_decreasing_series :
  ES_rule 7 [10; 5] == 2 /\
  (calculateEarnedSchedule (Some (Fin 7)) (qs [10; 5]) == Fin 0)%num /\
  ~ (calculateEarnedSchedule (Some (Fin 7)) (qs [10; 5])
     == Fin (ES_rule 7 [10; 5]))%num.
Proof.
  split; [reflexivity | split; [reflexivity |]].
  vm_compute. discriminate.
Qed.

(** C1 (amended).  For every non-empty planned-value series that never
    decreases and every earned value that is a finite number,
    [calculateEarnedSchedule] computes ES by the rule of the
    specification ([ES_rule]: the greatest index [C]
    with [pvCum[C] <= evCum]; 0 without one; [C + 1] at the last index or
    within 1e-9; otherwise [C + 1] plus the interpolated fraction).  For
    [pvCum = [10; 25; 45; 70; 100]] and [evCum = 38] the result is 2.65. *)
Theorem C1_ES_rule_on_nondecreasing_series :
  (forall (pvCum : list Q) (evCum : Q),
      pvCum <> [] ->
      nondecreasing pvCum = true ->
      (calculateEarnedSchedule (Some (Fin evCum)) (qs pvCum)
       == Fin (ES_rule evCum pvCum))%num) /\
  (calculateEarnedSchedule (Some (Fin 38)) (qs [10; 25; 45; 70; 100])
   == Fin 2.65)%num.
Proof.
  split.
  - intros pvCum evCum _ Hs.
    rewrite calculateEarnedSchedule_fin. simpl.
    symmetry. now apply ES_rule_sorted.
  - vm_compute. reflexivity.
Qed.

Lemma C1_witness :
  [10; 25; 45; 70; 100] <> [] /\
  nondecreasing [10; 25; 45; 70; 100] = true /\
  (calculateEarnedSchedule (Some (Fin 60)) (qs [10; 25; 45; 70; 100])
   == Fin (ES_rule 60 [10; 25; 45; 70; 100]))%num.
Proof.
  split; [discriminate | split; [reflexivity |]].
  apply (proj1 C1_ES_rule_on_nondecreasing_series);
    [discriminate | reflexivity].
Defined.

(** C5.  For every non-empty planned-value series and every earned value
    (a number, an infinity, or a missing value) the result lies between 0
    and the length of the series; on a non-decreasing series it is 0 when
    the earned value is below the first entry and the length of the series
    when the earned value is at or above the last entry. *)
Theorem C5_ES_range_and_boundaries :
  forall (pvCum : list Q) (evCum : jsval),
    pvCum <> [] ->
    (exists r : Q,
        calculateEarnedSchedule evCum (qs pvCum) = Fin r /\
        0 <= r /\ r <= inject_Z (alen pvCum)) /\
    (nondecreasing pvCum = true ->
     ((to_number evCum <? Fin (nth 0 pvCum 0))%num = true ->
      (calculateEarnedSchedule evCum (qs pvCum) == of_Z 0)%num) /\
     ((to_number evCum >=? Fin (last pvCum 0))%num = true ->
      (calculateEarnedSchedule evCum (qs pvCum)
       == of_Z (alen pvCum))%num)).
Proof.
  intros pvCum evCum Hne.
  assert (Hlen0 : 0 <= inject_Z (alen pvCum)).
  { change 0 with (inject_Z 0). rewrite <- Zle_Qle. unfold alen. lia. }
  pose proof (calculateEarnedSchedule_nonfin evCum pvCum Hne) as Hnf.
  destruct evCum as [[q| | |]|]; simpl to_number in *.
  - pose proof (calculateEarnedSchedule_fin q pvCum) as Hf.
    destruct (num_eq_fin_inv _ _ Hf) as (a & Ha & Haq).
    destruct (es_q_segment q pvCum) as (L & _ & U).
    split.
    + exists a. split; [exact Ha|]. rewrite Haq. split; [|exact U].
      apply Qle_trans with (inject_Z (Z.of_nat (pos_gt q pvCum))); [|exact L].
      change 0 with (inject_Z 0). rewrite <- Zle_Qle. lia.
    + intro Hs. split; intro Hcmp; rewrite Hf; unfold of_Z, num_eq, es_q.
      * destruct pvCum as [|p r]; [congruence|].
        simpl in Hcmp. simpl. rewrite Hcmp. reflexivity.
      * unfold geb in Hcmp. simpl in Hcmp. apply Qle_bool_iff in Hcmp.
        rewrite first_gt_all_le; [reflexivity|].
        intros x Hx. apply Qle_trans with (last pvCum 0); [|exact Hcmp].
        now apply nondecreasing_last.
  - split.
    + exists (inject_Z (alen pvCum)). split; [exact Hnf|]. split; lra.
    + intro Hs. split; intro Hcmp; [discriminate | rewrite Hnf; reflexivity].
  - split.
    + exists (inject_Z 0). split; [exact Hnf|].
      split; [apply Qle_refl | exact Hlen0].
    + intro Hs. split; intro Hcmp; [rewrite Hnf; reflexivity | discriminate].
  - split.
    + exists (inject_Z (alen pvCum)). split; [exact Hnf|]. split; lra.
    + intro Hs. split; intro Hcmp; discriminate.
  - split.
    + exists (inject_Z (alen pvCum)). split; [exact Hnf|]. split; lra.
    + intro Hs. split; intro Hcmp; discriminate.
Qed.

Lemma C5_witness :
  [10; 25; 45; 70] <> [] /\
  nondecreasing [10; 25; 45; 70] = true /\
  (to_number (Some (Fin 5)) <? Fin (nth 0 [10; 25; 45; 70] 0))%num = true /\
  (to_number (Some (Fin 80)) >=? Fin (last [10; 25; 45; 70] 0))%num = true /\
  (calculateEarnedSchedule (Some (Fin 5)) (qs [10; 25; 45; 70])
   == of_Z 0)%num /\
  (calculateEarnedSchedule (Some (Fin 80)) (qs [10; 25; 45; 70])
   == of_Z (alen [10; 25; 45; 70]))%num.
Proof.
  assert (Hne : [10; 25; 45; 70] <> []) by discriminate.
  assert (Hs : nondecreasing [10; 25; 45; 70] = true) by reflexivity.
  split; [exact Hne | split; [exact Hs | split; [reflexivity |
    split; [reflexivity | split]]]].
  - apply (proj2 (C5_ES_range_and_boundaries [10; 25; 45; 70]
                    (Some (Fin 5)) Hne) Hs).
    reflexivity.
  - apply (proj2 (C5_ES_range_and_boundaries [10; 25; 45; 70]
                    (Some (Fin 80)) Hne) Hs).
    reflexivity.
Defined.

(** C9.  For every non-empty, non-decreasing planned-value series the
    result is at least 0 and does not decrease when the earned value
    grows. *)
Theorem C9_ES_monotone_in_earned_value :
  forall (pvCum : list Q) (ev1 ev2 : Q),
    pvCum <> [] ->
    nondecreasing pvCum = true ->
    ev1 <= ev2 ->
    (of_Z 0 <=? calculateEarnedSchedule (Some (Fin ev1)) (qs pvCum))%num
    = true /\
    (calculateEarnedSchedule (Some (Fin ev1)) (qs pvCum)
     <=? calculateEarnedSchedule (Some (Fin ev2)) (qs pvCum))%num = true.
Proof.
  intros pvCum ev1 ev2 _ _ Hle.
  pose proof (calculateEarnedSchedule_fin ev1 pvCum) as H1.
  pose proof (calculateEarnedSchedule_fin ev2 pvCum) as H2.
  split.
  - apply (leb_of_eq _ _ 0 (es_q ev1 pvCum)); [reflexivity | exact H1 |].
    destruct (es_q_segment ev1 pvCum) as (L & _ & _).
    apply Qle_trans with (inject_Z (Z.of_nat (pos_gt ev1 pvCum))); [|exact L].
    change 0 with (inject_Z 0). rewrite <- Zle_Qle. lia.
  - apply (leb_of_eq _ _ _ _ H1 H2). now apply es_q_mono.
Qed.

Lemma C9_witness :
  [10; 25; 45; 70] <> [] /\
  nondecreasing [10; 25; 45; 70] = true /\
  20 <= 38 /\
  (calculateEarnedSchedule (Some (Fin 20)) (qs [10; 25; 45; 70])
   <=? calculateEarnedSchedule (Some (Fin 38)) (qs [10; 25; 45; 70]))%num
  = true.
Proof.
  split; [discriminate | split; [reflexivity | split; [discriminate |]]].
  apply (C9_ES_monotone_in_earned_value [10; 25; 45; 70] 20 38);
    [discriminate | reflexivity | discriminate].
Defined.

End EarnedSchedule.

(* ================================================================== *)
(** ** Properties of [calculateMetrics] *)

Section Metrics.

Local Open Scope Q_scope.




(** C6.  Every degenerate denominator has its fallback: SPI_t is 1 (the
    record shows "1.00") at actual time 0 whatever ES is; IEAC_t_M is
    +Infinity when SPI_t <= 0; TSPI_M is +Infinity when the milestone
    duration equals the actual time; IEAC_t_RP is +Infinity when
    SPI_t_rem <= 0.  The function is total: for every input it returns a
    record in which ES, SV_t and SPI_t are set. *)
Theorem C6_degenerate_denominators_fall_back :
  (forall (pvValues evValues : list num)
          (milestoneDuration replanTime : option Z),
      SPI_t_value (calculateEarnedSchedule (alast evValues) pvValues) 0
      = of_Z 1 /\
      SPI_t (calculateMetrics pvValues evValues 0
               milestoneDuration replanTime)
      = Some "1.00"%string) /\
  (forall (pvValues evValues : list num) (actualTime md : Z)
          (replanTime : option Z),
      let SPI := SPI_t_value
                   (calculateEarnedSchedule (alast evValues) pvValues)
                   actualTime in
      (SPI <=? of_Z 0)%num = true ->
      IEAC_t_M_value SPI md = PInf /\
      IEAC_t_M (calculateMetrics pvValues evValues actualTime
                  (Some md) replanTime)
      = Some "Infinity"%string) /\
  (forall (pvValues evValues : list num) (actualTime : Z)
          (replanTime : option Z),
      TSPI_M_value (calculateEarnedSchedule (alast evValues) pvValues)
        actualTime actualTime = PInf /\
      TSPI_M (calculateMetrics pvValues evValues actualTime
                (Some actualTime) replanTime)
      = Some "Infinity"%string) /\
  (forall (pvValues evValues : list num) (actualTime rt : Z)
          (milestoneDuration : option Z),
      let SPI := SPI_t_value
                   (calculateEarnedSchedule (alast evValues) pvValues)
                   actualTime in
      let SPI_rem := SPI_t_rem_value pvValues evValues SPI actualTime rt in
      (SPI_rem <=? of_Z 0)%num = true ->
      IEAC_t_RP_value SPI_rem rt (alen pvValues - rt) = PInf /\
      IEAC_t_RP (calculateMetrics pvValues evValues actualTime
                   milestoneDuration (Some rt))
      = Some "Infinity"%string) /\
  parseFloat "Infinity" = PInf /\
  (forall (pvValues evValues : list num) (actualTime : Z)
          (milestoneDuration replanTime : option Z),
      let m := calculateMetrics pvValues evValues actualTime
                 milestoneDuration replanTime in
      ES m <> None /\ SV_t m <> None /\ SPI_t m <> None).
Proof.
  split; [|split; [|split; [|split; [|split]]]].
  - intros pvValues evValues [md|] [rt|]; split; reflexivity.
  - intros pvValues evValues actualTime md replanTime SPI H.
    assert (Hv : IEAC_t_M_value SPI md = PInf).
    { unfold IEAC_t_M_value. now rewrite (leb_gtb _ _ H). }
    split; [exact Hv|].
    destruct replanTime as [rt|]; unfold calculateMetrics; cbn;
      fold SPI; rewrite Hv; reflexivity.
  - intros pvValues evValues actualTime replanTime.
    assert (Hv : TSPI_M_value
                   (calculateEarnedSchedule (alast evValues) pvValues)
                   actualTime actualTime = PInf).
    { unfold TSPI_M_value. now rewrite Z.eqb_refl. }
    split; [exact Hv|].
    destruct replanTime as [rt|]; unfold calculateMetrics; cbn;
      rewrite Hv; reflexivity.
  - intros pvValues evValues actualTime rt milestoneDuration SPI SPI_rem H.
    assert (Hv : IEAC_t_RP_value SPI_rem rt (alen pvValues - rt) = PInf).
    { unfold IEAC_t_RP_value. now rewrite (leb_gtb _ _ H). }
    split; [exact Hv|].
    destruct milestoneDuration as [md|]; unfold calculateMetrics; cbn;
      fold SPI; fold SPI_rem; rewrite Hv; reflexivity.
  - reflexivity.
  - intros pvValues evValues actualTime [md|] [rt|]; cbv zeta;
      repeat split; discriminate.
Qed.

Lemma C6_witness :
  (SPI_t_value (calculateEarnedSchedule (alast (qs [5; 5])) (qs [10; 20])) 1
   <=? of_Z 0)%num = true /\
  IEAC_t_M (calculateMetrics (qs [10; 20]) (qs [5; 5]) 1 (Some 1%Z)
              (Some 0%Z))
  = Some "Infinity"%string /\
  IEAC_t_RP (calculateMetrics (qs [10; 20]) (qs [5; 5]) 1 (Some 1%Z)
               (Some 0%Z))
  = Some "Infinity"%string.
Proof.
  destruct C6_degenerate_denominators_fall_back as (_ & HM & _ & HR & _).
  split; [reflexivity | split].
  - apply (HM (qs [10; 20]) (qs [5; 5]) 1%Z 1%Z (Some 0%Z)). reflexivity.
  - apply (HR (qs [10; 20]) (qs [5; 5]) 1%Z 0%Z (Some 1%Z)). reflexivity.
Defined.



End Metrics.

(* ================================================================== *)
(** ** Properties of the simulation *)

Section Simulation.

Local Open Scope Z_scope.

Lemma alen_snoc {A : Type} (l : list A) (x : A) : alen (l ++ [x]) = alen l + 1.
Proof. unfold alen. rewrite length_app. simpl. lia. Qed.

Lemma runStep_log_in_step (s : sim) : log_in_step s -> log_in_step (runStep s).
Proof.
  intros (Hc & Hp & Hv & He & Hm).
  destruct (Z_lt_ge_dec (currentStep s) (maxSteps s)) as [Hlt|Hge].
  - destruct (runStep_results s Hlt) as (Rp & Rv & Re & Rm).
    unfold log_in_step.
    rewrite runStep_currentStep, runStep_maxSteps, Rp, Rv, Re, Rm by exact Hlt.
    rewrite !alen_snoc. repeat split; lia.
  - rewrite runStep_complete by exact Hge.
    exact (conj Hc (conj Hp (conj Hv (conj He Hm)))).
Qed.

Lemma runSteps_counter (N : nat) :
  forall s, log_in_step s ->
  currentStep (runSteps N s)
  = Z.min (currentStep s + Z.of_nat N) (maxSteps s) /\
  maxSteps (runSteps N s) = maxSteps s /\
  log_in_step (runSteps N s).
Proof.
  induction N as [|N IH]; intros s Hs.
  - pose proof Hs as (Hc & _). cbn [runSteps Z.of_nat].
    split; [lia | split; [reflexivity | exact Hs]].
  - cbn [runSteps].
    destruct (IH (runStep s) (runStep_log_in_step s Hs)) as (Hc & Hm & Hl).
    rewrite Hc, Hm, runStep_maxSteps.
    split; [|split; [reflexivity | exact Hl]].
    destruct Hs as (Hb & _).
    destruct (Z_lt_ge_dec (currentStep s) (maxSteps s)) as [Hlt|Hge].
    + rewrite runStep_currentStep by exact Hlt. lia.
    + rewrite runStep_complete by exact Hge.
      cbn [report_complete currentStep]. lia.
Qed.

Lemma min_one_not_above (y : num) : (min (of_Z 1) y >? of_Z 1)%num = false.
Proof.
  destruct y as [b| | |]; try reflexivity.
  unfold min, of_Z, gtb. cbn [ltb].
  destruct (Qltb b (inject_Z 1)) eqn:E; cbn [ltb].
  - unfold Qltb in *. apply negb_true_iff in E. apply negb_false_iff.
    apply Qle_bool_iff. apply not_true_iff_false in E.
    rewrite Qle_bool_iff in E. apply Qlt_le_weak. now apply Qnot_le_lt.
  - reflexivity.
Qed.

Lemma max_floor_not_below (x : Q) (y : num) :
  (max (Fin x) y <? Fin x)%num = false.
Proof.
  destruct y as [b| | |]; try reflexivity.
  - unfold max. cbn [ltb].
    destruct (Qltb x b) eqn:E; cbn [ltb].
    + unfold Qltb in *. apply negb_true_iff in E. apply negb_false_iff.
      apply Qle_bool_iff. apply not_true_iff_false in E.
      rewrite Qle_bool_iff in E. apply Qlt_le_weak. now apply Qnot_le_lt.
    + unfold Qltb. apply negb_false_iff, Qle_bool_iff, Qle_refl.
  - unfold max. cbn [ltb]. unfold Qltb.
    apply negb_false_iff, Qle_bool_iff, Qle_refl.
Qed.

Lemma div_fin (a b : Q) :
  ~ (b == 0)%Q -> (Fin a / Fin b)%num = Fin (a / b).
Proof.
  intro H. unfold div. destruct (Qeq_bool b 0) eqn:E; [|reflexivity].
  apply Qeq_bool_iff in E. contradiction.
Qed.

Lemma alast_snoc (l : list num) (x : num) : alast (l ++ [x]) = Some x.
Proof.
  unfold alast, aget. rewrite alen_snoc.
  destruct (Z.ltb_spec (alen l + 1 - 1) 0) as [H|_];
    [unfold alen in H; lia|].
  replace (Z.to_nat (alen l + 1 - 1)) with (List.length l)
    by (unfold alen; lia).
  rewrite nth_error_app2 by lia. now rewrite Nat.sub_diag.
Qed.

Lemma alast_qs (l : list Q) :
  l <> [] -> alast (qs l) = Some (Fin (last l 0%Q)).
Proof.
  intro Hne. destruct (exists_last Hne) as (l' & x & ->).
  unfold qs. rewrite map_app, last_last. cbn [map]. apply alast_snoc.
Qed.

(** On rationals the target of the code is the target of the
    specification. *)
Lemma targetSPIt_fin (scen : string) (r : Q) :
  exists t : Q,
    targetSPIt scen (Fin r) = Fin t /\ (t == target_rule scen r)%Q.
Proof.
  unfold targetSPIt, target_rule.
  destruct (String.eqb scen "recovery").
  - unfold min, of_Z, add. cbn [ltb].
    change (inject_Z 1) with 1%Q.
    destruct (Q.min_spec 1 (r + (5 # 100))) as [[H E]|[H E]];
      destruct (Qltb (r + (5 # 100)) 1) eqn:L;
      eexists; (split; [reflexivity|]);
      try apply Qltb_lt in L; try apply Qltb_ge in L; lra.
  - destruct (String.eqb scen "slippage").
    + unfold max, sub, neg, add. cbn [ltb].
      change (r + - (3 # 100))%Q with (r - (3 # 100))%Q.
      destruct (Q.max_spec (7 # 10) (r - (3 # 100))) as [[H E]|[H E]];
        destruct (Qltb (7 # 10) (r - (3 # 100))) eqn:L;
        eexists; (split; [reflexivity|]);
        try apply Qltb_lt in L; try apply Qltb_ge in L; lra.
    + exists r. split; reflexivity.
Qed.

Lemma target_rule_comp (scen : string) (a b : Q) :
  (a == b)%Q -> (target_rule scen a == target_rule scen b)%Q.
Proof.
  intro H. unfold target_rule.
  destruct (String.eqb scen "recovery"); [now rewrite H|].
  destruct (String.eqb scen "slippage"); [now rewrite H | exact H].
Qed.

(** The EV appended by an effective step, on rationals: the record holds
    SPI_t as the string printed by [toFixed(2)], and what [parseFloat]
    reads back is the index rounded to two decimals. *)
Lemma runStep_nextEV_fin (this : sim) (s e p0 p1 : Q) :
  currentStep this < maxSteps this ->
  SPI_t (currentMetrics this) = Some (toFixed 2 (Fin s)) ->
  alast (currentEV this) = Some (Fin e) ->
  aget (currentPV (runStep this)) (currentAT this) = Some (Fin p0) ->
  aget (currentPV (runStep this)) (currentAT this + 1) = Some (Fin p1) ->
  exists v : Q,
    currentEV (runStep this) = currentEV this ++ [Fin v] /\
    (v == e + target_rule (scenario this) (round_fixed 2 s) * (p1 - p0))%Q.
Proof.
  intros Hstep Hs He Hp0 Hp1.
  rewrite (runStep_currentPV this Hstep) in Hp0, Hp1.
  rewrite (runStep_currentEV this Hstep).
  unfold nextEV. cbv zeta.
  replace (currentAT this + 1 - 1) with (currentAT this) by lia.
  rewrite Hp0, Hp1, Hs, He. cbn [to_number prop_string].
  destruct (num_eq_fin_inv _ _ (parseFloat_toFixed 2 s (Nat.lt_0_succ 1)))
    as (r & -> & Hr).
  destruct (targetSPIt_fin (scenario this) r) as (t & -> & Ht).
  eexists. split; [reflexivity|].
  rewrite Ht, (target_rule_comp (scenario this) r _ Hr).
  unfold Qminus. reflexivity.
Qed.

(** C3.  In an effective step the EV appended is the last EV plus the
    target SPI_t times the PV increment of the new period, where the
    target comes from the SPI_t of the current metrics record: the lesser
    of 1.0 and SPI_t + 0.05 under "recovery", the greater of 0.7 and
    SPI_t - 0.03 under "slippage", SPI_t itself under "maintain".  The
    recovery target is never above 1.0 and the slippage target never
    below 0.7.  On rationals, with the record holding the two-decimal
    string of an index [s], the value appended is
    [e + target * (p1 - p0)] for the target computed from [s] rounded
    to two decimals; in the example project under "slippage" the record
    holds "0.88", the target is 0.85 and the value appended is
    38 + 0.85 * 20 = 55. *)
Theorem C3_scenario_sets_EV_increment :
  (forall this : sim,
      currentStep this < maxSteps this ->
      let nextPeriod := currentAT this + 1 in
      let PV := currentPV (runStep this) in
      let pvIncrement :=
        (to_number (aget PV nextPeriod)
         - to_number (aget PV (nextPeriod - 1)))%num in
      let previousSPIt :=
        parseFloat (prop_string (SPI_t (currentMetrics this))) in
      currentEV (runStep this)
      = currentEV this
        ++ [(to_number (alast (currentEV this))
             + targetSPIt (scenario this) previousSPIt * pvIncrement)%num]) /\
  (forall x : num,
      targetSPIt "recovery" x = min (of_Z 1) (x + Fin (5 # 100))%num /\
      (targetSPIt "recovery" x >? of_Z 1)%num = false) /\
  (forall x : num,
      targetSPIt "slippage" x = max (Fin (7 # 10)) (x - Fin (3 # 100))%num /\
      (targetSPIt "slippage" x <? Fin (7 # 10))%num = false) /\
  (forall x : num, targetSPIt "maintain" x = x) /\
  (forall q : Q,
      (targetSPIt "recovery" (Fin q) <=? of_Z 1)%num = true /\
      (Fin (7 # 10) <=? targetSPIt "slippage" (Fin q))%num = true) /\
  (forall (this : sim) (s e p0 p1 : Q),
      currentStep this < maxSteps this ->
      SPI_t (currentMetrics this) = Some (toFixed 2 (Fin s)) ->
      alast (currentEV this) = Some (Fin e) ->
      aget (currentPV (runStep this)) (currentAT this) = Some (Fin p0) ->
      aget (currentPV (runStep this)) (currentAT this + 1)
      = Some (Fin p1) ->
      exists v : Q,
        currentEV (runStep this) = currentEV this ++ [Fin v] /\
        (v == e + target_rule (scenario this) (round_fixed 2 s)
                  * (p1 - p0))%Q) /\
  (forall r : Q,
      (target_rule "recovery" r == Qmin 1 (r + (5 # 100)))%Q /\
      (target_rule "slippage" r == Qmax (7 # 10) (r - (3 # 100)))%Q /\
      (target_rule "maintain" r == r)%Q /\
      (target_rule "recovery" r <= 1)%Q /\
      (7 # 10 <= target_rule "slippage" r)%Q) /\
  SPI_t (currentMetrics (demo_sim 2 "slippage" false))
  = Some "0.88"%string /\
  (target_rule "slippage" (88 # 100) == 85 # 100)%Q /\
  (to_number (alast (currentEV (runStep (demo_sim 2 "slippage" false))))
   == Fin 55)%num.
Proof.
  split; [|split; [|split; [|split; [|split; [|split; [|split]]]]]].
  - intros this H. cbv zeta.
    rewrite runStep_currentEV, runStep_currentPV by exact H. reflexivity.
  - intro x. split; [reflexivity|].
    change (targetSPIt "recovery" x)
      with (min (of_Z 1) (x + Fin (5 # 100))%num).
    apply min_one_not_above.
  - intro x. split; [reflexivity|].
    change (targetSPIt "slippage" x)
      with (max (Fin (7 # 10)) (x - Fin (3 # 100))%num).
    apply max_floor_not_below.
  - intro x. reflexivity.
  - intro q. split.
    + change (targetSPIt "recovery" (Fin q))
        with (min (of_Z 1) (Fin (q + (5 # 100)))).
      unfold min, of_Z. cbn [ltb leb].
      destruct (Qltb (q + (5 # 100)) (inject_Z 1)) eqn:E; cbn [leb].
      * apply Qle_bool_iff. apply Qltb_lt in E. now apply Qlt_le_weak.
      * apply Qle_bool_iff, Qle_refl.
    + change (targetSPIt "slippage" (Fin q))
        with (max (Fin (7 # 10)) (Fin (q + - (3 # 100)))).
      unfold max. cbn [ltb leb].
      destruct (Qltb (7 # 10) (q + - (3 # 100))) eqn:E; cbn [leb].
      * apply Qle_bool_iff. apply Qltb_lt in E. now apply Qlt_le_weak.
      * apply Qle_bool_iff, Qle_refl.
  - intros this s e p0 p1. apply runStep_nextEV_fin.
  - intro r.
    change (target_rule "recovery" r) with (Qmin 1 (r + (5 # 100)))%Q.
    change (target_rule "slippage" r) with (Qmax (7 # 10) (r - (3 # 100)))%Q.
    change (target_rule "maintain" r) with r.
    split; [reflexivity | split; [reflexivity | split; [reflexivity |]]].
    split; [apply Q.le_min_l | apply Q.le_max_l].
  - split; [vm_compute; reflexivity|].
    split; vm_compute; reflexivity.
Qed.

Lemma C3_witness :
  currentStep (demo_sim 2 "slippage" false)
  < maxSteps (demo_sim 2 "slippage" false) /\
  SPI_t (currentMetrics (demo_sim 2 "slippage" false))
  = Some (toFixed 2 (Fin (53 # 60))) /\
  exists v : Q,
    currentEV (runStep (demo_sim 2 "slippage" false))
    = currentEV (demo_sim 2 "slippage" false) ++ [Fin v] /\
    (v == 38 + target_rule "slippage" (round_fixed 2 (53 # 60))
               * ((270 # 3) - 70))%Q.
Proof.
  split; [reflexivity | split; [vm_compute; reflexivity |]].
  apply (proj1 (proj2 (proj2 (proj2 (proj2 (proj2
           C3_scenario_sets_EV_increment)))))
           (demo_sim 2 "slippage" false) (53 # 60)%Q 38%Q 70%Q
           (270 # 3)%Q);
    [reflexivity | vm_compute; reflexivity | reflexivity | reflexivity
    | reflexivity].
Defined.

(** C4.  From a freshly initialised simulation with a number of steps
    [steps >= 0], after N calls of [runStep] the step counter is
    min(N, steps) and each array of the result log has as many entries as
    the counter, hence at most [steps].  A call made with the counter at
    [maxSteps] changes nothing but the status line, which reports the end.
    An effective call adds exactly one entry to each array of the log. *)
Theorem C4_step_counter_and_log :
  (forall (this : sim) (pv ev : list num) (actualTime md steps : Z)
          (scen : string) (replan : bool) (N : nat),
      0 <= steps ->
      let s := runSteps N
                 (initSimulation this pv ev actualTime md steps scen replan) in
      currentStep s = Z.min (Z.of_nat N) steps /\
      maxSteps s = steps /\
      alen (periods (simulationResults s)) = currentStep s /\
      alen (pvValues (simulationResults s)) = currentStep s /\
      alen (evValues (simulationResults s)) = currentStep s /\
      alen (metrics (simulationResults s)) = currentStep s /\
      alen (metrics (simulationResults s)) <= steps) /\
  (forall this : sim,
      currentStep this >= maxSteps this ->
      let s := runStep this in
      currentStep s = currentStep this /\
      maxSteps s = maxSteps this /\
      currentAT s = currentAT this /\
      currentPV s = currentPV this /\
      currentEV s = currentEV this /\
      currentMetrics s = currentMetrics this /\
      simulationResults s = simulationResults this /\
      isRunning s = isRunning this /\
      simulationInterval s = simulationInterval this /\
      scenario s = scenario this /\
      replanTime s = replanTime this /\
      milestoneDuration s = milestoneDuration this /\
      simStatus_textContent s = "Simulation complete!"%string /\
      simStatus_className s = "alert alert-success"%string) /\
  (forall this : sim,
      currentStep this < maxSteps this ->
      let log := simulationResults this in
      let log' := simulationResults (runStep this) in
      currentStep (runStep this) = currentStep this + 1 /\
      alen (periods log') = alen (periods log) + 1 /\
      alen (pvValues log') = alen (pvValues log) + 1 /\
      alen (evValues log') = alen (evValues log) + 1 /\
      alen (metrics log') = alen (metrics log) + 1).
Proof.
  split; [|split].
  - intros this pv ev actualTime md steps scen replan N Hsteps s.
    assert (Hinit : log_in_step
              (initSimulation this pv ev actualTime md steps scen replan)).
    { unfold log_in_step. cbn. repeat split; try reflexivity; lia. }
    destruct (runSteps_counter N _ Hinit) as (Hc & Hm & Hl).
    fold s in Hc, Hm, Hl. cbn [initSimulation currentStep maxSteps] in Hc, Hm.
    destruct Hl as (Hb & Hp & Hv & He & Hx).
    rewrite Hp, Hv, He, Hx, Hm. rewrite Hm in Hb.
    repeat split; try reflexivity; lia.
  - intros this H s. subst s. rewrite runStep_complete by exact H.
    repeat split; reflexivity.
  - intros this H log log'. subst log log'.
    destruct (runStep_results this H) as (Rp & Rv & Re & Rm).
    rewrite Rp, Rv, Re, Rm, !alen_snoc.
    repeat split; try reflexivity. now apply runStep_currentStep.
Qed.

Lemma C4_witness :
  0 <= 2 /\
  currentStep (runSteps 2 (demo_sim 2 "recovery" true))
  >= maxSteps (runSteps 2 (demo_sim 2 "recovery" true)) /\
  currentStep (runSteps 1 (demo_sim 2 "recovery" true))
  < maxSteps (runSteps 1 (demo_sim 2 "recovery" true)) /\
  currentStep (runSteps 5 (demo_sim 2 "recovery" true)) = Z.min 5 2 /\
  simulationResults (runStep (runSteps 2 (demo_sim 2 "recovery" true)))
  = simulationResults (runSteps 2 (demo_sim 2 "recovery" true)) /\
  currentStep (runStep (runSteps 1 (demo_sim 2 "recovery" true)))
  = currentStep (runSteps 1 (demo_sim 2 "recovery" true)) + 1.
Proof.
  destruct C4_step_counter_and_log as (Hrun & Hstop & Hgo).
  assert (H0 : 0 <= 2) by lia.
  assert (H1 : currentStep (runSteps 2 (demo_sim 2 "recovery" true))
               >= maxSteps (runSteps 2 (demo_sim 2 "recovery" true)))
    by (vm_compute; discriminate).
  assert (H2 : currentStep (runSteps 1 (demo_sim 2 "recovery" true))
               < maxSteps (runSteps 1 (demo_sim 2 "recovery" true)))
    by (vm_compute; reflexivity).
  split; [exact H0 | split; [exact H1 | split; [exact H2 | split; [|split]]]].
  - apply (Hrun (constructor "" "") demo_PV demo_EV 3 10 2
             "recovery"%string true 5%nat H0).
  - apply (Hstop _ H1).
  - apply (Hgo _ H2).
Defined.

(** The extension of a series of rationals of two entries or more. *)
Lemma extendPV_qs (pv : list Q) (nextPeriod : Z) :
  (2 <= List.length pv)%nat ->
  alen pv <= nextPeriod ->
  extendPV (qs pv) nextPeriod
  = qs (pv ++ [last pv 0 + (last pv 0 - nth 0 pv 0)
                           / inject_Z (alen pv - 1)])%Q.
Proof.
  intros Hlen Hnext.
  assert (Hne : pv <> [])
    by (destruct pv; [simpl in Hlen; lia | discriminate]).
  assert (Hqs : alen (qs pv) = alen pv)
    by (unfold alen, qs; now rewrite length_map).
  assert (Hd : ~ (inject_Z (alen pv - 1) == 0)%Q).
  { change 0%Q with (inject_Z 0). rewrite inject_Z_injective.
    unfold alen. lia. }
  unfold extendPV. rewrite Hqs.
  destruct (Z.leb_spec (alen pv) nextPeriod) as [_|H]; [|lia].
  cbv zeta. rewrite (alast_qs pv Hne).
  replace (aget (qs pv) 0) with (Some (Fin (nth 0 pv 0%Q)))
    by (symmetry; apply (aget_qs pv 0); lia).
  cbn [to_number]. unfold of_Z, sub, neg, add.
  rewrite div_fin by exact Hd.
  unfold qs. rewrite map_app. reflexivity.
Qed.

(** C8.  In an effective step at a period index [currentAT >= 0]: when
    the PV array has no entry for the new period, exactly one value is
    appended to it, the last PV plus (last PV - first PV) / (length - 1);
    when it has one, the PV array is unchanged.  On a series of two or
    more rationals the value appended is that rational; for the example
    project [10; 25; 45; 70] it is 70 + (70 - 10) / 3 = 90. *)
Theorem C8_PV_extrapolation :
  (forall this : sim,
      currentStep this < maxSteps this ->
      0 <= currentAT this ->
      currentPV (runStep this)
      = match aget (currentPV this) (currentAT this + 1) with
        | None =>
            currentPV this
            ++ [(to_number (alast (currentPV this))
                 + (to_number (alast (currentPV this))
                    - to_number (aget (currentPV this) 0))
                   / of_Z (alen (currentPV this) - 1))%num]
        | Some _ => currentPV this
        end) /\
  (forall (this : sim) (pv : list Q),
      currentStep this < maxSteps this ->
      currentPV this = qs pv ->
      (2 <= List.length pv)%nat ->
      alen pv <= currentAT this + 1 ->
      exists v : Q,
        currentPV (runStep this) = qs (pv ++ [v]) /\
        (v == last pv 0
              + (last pv 0 - nth 0 pv 0) / inject_Z (alen pv - 1))%Q) /\
  (to_number (alast (currentPV (runStep (demo_sim 2 "recovery" false))))
   == Fin 90)%num.
Proof.
  split; [|split].
  - intros this Hstep Hat.
    rewrite runStep_currentPV by exact Hstep.
    assert (Hget : aget (currentPV this) (currentAT this + 1)
                   = nth_error (currentPV this)
                       (Z.to_nat (currentAT this + 1))).
    { unfold aget.
      destruct (Z.ltb_spec (currentAT this + 1) 0) as [H|_];
        [lia|reflexivity]. }
    rewrite Hget. unfold extendPV.
    destruct (Z.leb_spec (alen (currentPV this)) (currentAT this + 1))
      as [Hle|Hgt].
    + assert (Hn : nth_error (currentPV this)
                     (Z.to_nat (currentAT this + 1)) = None).
      { apply nth_error_None. unfold alen in Hle. lia. }
      rewrite Hn. reflexivity.
    + destruct (nth_error (currentPV this) (Z.to_nat (currentAT this + 1)))
        eqn:Hn; [reflexivity|].
      apply nth_error_None in Hn. unfold alen in Hgt. lia.
  - intros this pv Hstep Hpv Hlen Hnext.
    rewrite (runStep_currentPV this Hstep), Hpv.
    eexists. split; [apply (extendPV_qs pv _ Hlen Hnext) | reflexivity].
  - vm_compute. reflexivity.
Qed.

Lemma C8_witness :
  currentStep (demo_sim 2 "recovery" false)
  < maxSteps (demo_sim 2 "recovery" false) /\
  (2 <= List.length [10; 25; 45; 70]%Q)%nat /\
  alen [10; 25; 45; 70]%Q <= currentAT (demo_sim 2 "recovery" false) + 1 /\
  exists v : Q,
    currentPV (runStep (demo_sim 2 "recovery" false))
    = qs ([10; 25; 45; 70] ++ [v])%Q /\
    (v == 70 + (70 - 10) / inject_Z 3)%Q.
Proof.
  assert (H1 : (2 <= List.length [10; 25; 45; 70]%Q)%nat) by (simpl; lia).
  assert (H2 : alen [10; 25; 45; 70]%Q
               <= currentAT (demo_sim 2 "recovery" false) + 1)
    by (vm_compute; discriminate).
  split; [reflexivity | split; [exact H1 | split; [exact H2 |]]].
  apply (proj1 (proj2 C8_PV_extrapolation)
           (demo_sim 2 "recovery" false) [10; 25; 45; 70]%Q);
    [reflexivity | reflexivity | exact H1 | exact H2].
Defined.

End Simulation.

(* ================================================================== *)
(** ** Further properties of [calculateEarnedSchedule] *)

Section EarnedScheduleMore.

Local Open Scope Q_scope.

Lemma first_above_some (ev : num) (l : list num) (j : nat) :
  first_above ev l = Some j -> (j < List.length l)%nat.
Proof.
  revert j. induction l as [|p r IH]; intros j; simpl; [discriminate|].
  destruct (p >? ev)%num.
  - intros [= <-]. lia.
  - destruct (first_above ev r) as [j'|]; simpl; [|discriminate].
    intros [= <-]. specialize (IH j' eq_refl). lia.
Qed.

Lemma first_above_exists (ev : num) (l : list num) :
  existsb (fun p => (p >? ev)%num) l = true ->
  exists j, first_above ev l = Some j.
Proof.
  induction l as [|p r IH]; simpl; [discriminate|].
  destruct (p >? ev)%num; simpl.
  - intros _. now exists O.
  - intro H. destruct (IH H) as (j & ->). now exists (S j).
Qed.

Lemma first_above_app (ev : num) (l ext : list num) (j : nat) :
  first_above ev l = Some j -> first_above ev (l ++ ext) = Some j.
Proof.
  revert j. induction l as [|p r IH]; intros j; simpl; [discriminate|].
  destruct (p >? ev)%num; [trivial|].
  destruct (first_above ev r) as [j'|]; simpl; [|discriminate].
  intros [= <-]. now rewrite (IH j' eq_refl).
Qed.

(** The scan stops at the first entry above [ev], whatever the length of
    the array and the value of [C] so far. *)
Lemma scan_C_first_above (ev : num) (rest : list num) :
  forall (j : nat) (len i : Z) (C : option Z),
  first_above ev rest = Some j ->
  scan_C len ev rest i C = Some (i + Z.of_nat j - 1)%Z.
Proof.
  induction rest as [|p r IH]; intros j len i C; simpl; [discriminate|].
  destruct (p >? ev)%num.
  - intros [= <-]. f_equal. lia.
  - destruct (first_above ev r) as [j'|] eqn:E; simpl; [|discriminate].
    intros [= <-].
    destruct (i =? len - 1)%Z; rewrite (IH j') by reflexivity; f_equal; lia.
Qed.

Lemma aget_app (l ext : list num) (k : Z) :
  (k < alen l)%Z -> aget (l ++ ext) k = aget l k.
Proof.
  intro H. unfold aget. destruct (k <? 0)%Z eqn:E; [reflexivity|].
  apply Z.ltb_ge in E. apply nth_error_app1. unfold alen in H. lia.
Qed.

Lemma calculateEarnedSchedule_first_above (ev : jsval) (pv : list num)
  (j : nat) :
  first_above (to_number ev) pv = Some j ->
  calculateEarnedSchedule ev pv =
  if (Z.of_nat j - 1 <? 0)%Z then of_Z 0
  else if (abs (to_number (aget pv (Z.of_nat j - 1)) - to_number ev)
           <? eps)%num
       then of_Z (Z.of_nat j - 1 + 1)
       else
         let PV_C := to_number (aget pv (Z.of_nat j - 1)) in
         let PV_next := to_number (aget pv (Z.of_nat j - 1 + 1)) in
         (of_Z (Z.of_nat j - 1 + 1)
          + (if (abs (PV_next - PV_C) >? eps)%num
             then (to_number ev - PV_C) / (PV_next - PV_C)
             else of_Z 0))%num.
Proof.
  intro Hf. pose proof (first_above_some _ _ _ Hf) as Hj.
  unfold calculateEarnedSchedule. cbv zeta.
  rewrite (scan_C_first_above _ _ j _ _ _ Hf).
  replace (0 + Z.of_nat j - 1)%Z with (Z.of_nat j - 1)%Z by lia.
  destruct (Z.of_nat j - 1 <? 0)%Z; [reflexivity|].
  destruct (Z.eqb_spec (Z.of_nat j - 1) (alen pv - 1)) as [H|_];
    [unfold alen in H; lia|].
  reflexivity.
Qed.

(** X1.  Planned values after the first one above the earned value do not
    matter: when some entry of [pv] is above [ev], extending the plan
    leaves the earned schedule unchanged. *)
Theorem X1_ES_ignores_later_periods :
  forall (ev : jsval) (pv ext : list num),
    existsb (fun p => (p >? to_number ev)%num) pv = true ->
    calculateEarnedSchedule ev (pv ++ ext) = calculateEarnedSchedule ev pv.
Proof.
  intros ev pv ext H.
  destruct (first_above_exists _ _ H) as (j & Hj).
  pose proof (first_above_some _ _ _ Hj) as Hlt.
  rewrite (calculateEarnedSchedule_first_above ev pv j Hj).
  rewrite (calculateEarnedSchedule_first_above ev (pv ++ ext) j
             (first_above_app _ _ ext _ Hj)).
  destruct (Z.ltb_spec (Z.of_nat j - 1) 0) as [_|Hge]; [reflexivity|].
  rewrite !aget_app by (unfold alen; lia). reflexivity.
Qed.

Lemma X1_witness :
  existsb (fun p => (p >? to_number (Some (Fin 38)))%num)
    (qs [10; 25; 45]) = true /\
  calculateEarnedSchedule (Some (Fin 38)) (qs [10; 25; 45] ++ qs [70; 100])
  = calculateEarnedSchedule (Some (Fin 38)) (qs [10; 25; 45]).
Proof.
  split; [reflexivity|].
  apply (X1_ES_ignores_later_periods (Some (Fin 38)) (qs [10; 25; 45])
           (qs [70; 100])).
  reflexivity.
Defined.

Lemma nondecreasing_nth (l : list Q) :
  nondecreasing l = true ->
  forall i j, (i <= j < List.length l)%nat -> nth i l 0 <= nth j l 0.
Proof.
  induction l as [|a r IH]; intros Hs i j Hij; [simpl in Hij; lia|].
  pose proof (nondecreasing_tail _ _ Hs) as Ht.
  destruct i as [|i], j as [|j]; simpl in Hij |- *.
  - apply Qle_refl.
  - apply (nondecreasing_head _ _ Hs). apply nth_In. lia.
  - lia.
  - apply IH; [exact Ht | lia].
Qed.

Lemma increasing_tail (a : Q) (r : list Q) :
  increasing (a :: r) = true -> increasing r = true.
Proof.
  destruct r as [|b r']; [reflexivity|].
  cbn [increasing]. intro H. apply andb_prop in H. exact (proj2 H).
Qed.

Lemma increasing_nondecreasing (l : list Q) :
  increasing l = true -> nondecreasing l = true.
Proof.
  induction l as [|a r IH]; intro H; [reflexivity|].
  pose proof (increasing_tail _ _ H) as Ht.
  destruct r as [|b r']; [reflexivity|].
  cbn [increasing] in H. apply andb_prop in H. destruct H as [Hab _].
  cbn [nondecreasing]. apply andb_true_intro. split; [|now apply IH].
  apply Qle_bool_iff. apply Qltb_lt in Hab. now apply Qlt_le_weak.
Qed.

Lemma increasing_step (l : list Q) :
  increasing l = true ->
  forall k, (S k < List.length l)%nat -> nth k l 0 < nth (S k) l 0.
Proof.
  induction l as [|a r IH]; intros H k Hk; [simpl in Hk; lia|].
  pose proof (increasing_tail _ _ H) as Ht.
  destruct r as [|b r']; [simpl in Hk; lia|].
  destruct k as [|k].
  - cbn [increasing] in H. apply andb_prop in H. destruct H as [Hab _].
    simpl. now apply Qltb_lt.
  - change (nth (S k) (a :: b :: r') 0) with (nth k (b :: r') 0).
    change (nth (S (S k)) (a :: b :: r') 0) with (nth (S k) (b :: r') 0).
    apply IH; [exact Ht | simpl in Hk |- *; lia].
Qed.

(** The first entry above [ev] is the one with nothing above [ev] before
    it. *)
Lemma first_gt_at (ev : Q) (l : list Q) :
  forall j, (j < List.length l)%nat ->
  ev < nth j l 0 ->
  (forall i, (i < j)%nat -> nth i l 0 <= ev) ->
  first_gt ev l = Some j.
Proof.
  induction l as [|p r IH]; intros j Hj Hgt Hle; [simpl in Hj; lia|].
  simpl. destruct j as [|j].
  - simpl in Hgt. apply Qltb_lt in Hgt. now rewrite Hgt.
  - assert (Hp : Qltb ev p = false).
    { apply Qltb_ge. apply (Hle O). lia. }
    rewrite Hp, (IH j); [reflexivity | simpl in Hj; lia | exact Hgt |].
    intros i Hi. apply (Hle (S i)). lia.
Qed.

Lemma es_q_on_plan (pv : list Q) (k : nat) :
  increasing pv = true ->
  (k < List.length pv)%nat ->
  es_q (nth k pv 0) pv == inject_Z (Z.of_nat k + 1).
Proof.
  intros Hinc Hk.
  pose proof (increasing_nondecreasing _ Hinc) as Hs.
  unfold es_q.
  destruct (Nat.eq_dec (S k) (List.length pv)) as [Hlast|Hnot].
  - rewrite first_gt_all_le.
    + unfold alen. rewrite <- Hlast. apply inject_Z_injective. lia.
    + intros x Hx. destruct (In_nth _ _ 0 Hx) as (i & Hi & <-).
      apply nondecreasing_nth; [exact Hs | lia].
  - rewrite (first_gt_at _ _ (S k)).
    + cbv zeta.
      assert (Hz : Qltb (Qabs (nth k pv 0 - nth k pv 0)) (1 # 1000000000)
                   = true).
      { apply Qltb_lt.
        assert (E : nth k pv 0 - nth k pv 0 == 0) by ring.
        rewrite E. reflexivity. }
      rewrite Hz. reflexivity.
    + lia.
    + apply increasing_step; [exact Hinc | lia].
    + intros i Hi. apply nondecreasing_nth; [exact Hs | lia].
Qed.

Lemma Qltb_comp (a b c d : Q) : a == b -> c == d -> Qltb a c = Qltb b d.
Proof.
  intros Hab Hcd.
  destruct (Qltb a c) eqn:E1; destruct (Qltb b d) eqn:E2; try reflexivity.
  - apply Qltb_lt in E1. apply Qltb_ge in E2. rewrite Hab, Hcd in E1.
    exfalso. apply (Qlt_not_le _ _ E1 E2).
  - apply Qltb_lt in E2. apply Qltb_ge in E1. rewrite Hab, Hcd in E1.
    exfalso. apply (Qlt_not_le _ _ E2 E1).
Qed.

(** [toFixed] prints equal numbers alike. *)
Lemma toFixed_comp (f : nat) (x y : num) :
  (x == y)%num -> toFixed f x = toFixed f y.
Proof.
  destruct x as [a| | |], y as [b| | |];
    try (simpl; contradiction); try reflexivity.
  intro H. unfold num_eq in H. unfold toFixed. cbv zeta.
  assert (Hfl : Qfloor (Qabs a * inject_Z (10 ^ Z.of_nat f) + (1 # 2))
                = Qfloor (Qabs b * inject_Z (10 ^ Z.of_nat f) + (1 # 2))).
  { apply Qfloor_comp. now rewrite H. }
  rewrite Hfl, (Qltb_comp a b 0 0 H (Qeq_refl 0)). reflexivity.
Qed.

(** X2.  On a series that grows in every period, an earned value equal to
    the planned value of period index [k] has the earned schedule
    [k + 1]. *)
Theorem X2_ES_at_planned_point :
  forall (pv : list Q) (k : nat),
    increasing pv = true ->
    (k < List.length pv)%nat ->
    (calculateEarnedSchedule (Some (Fin (nth k pv 0))) (qs pv)
     == of_Z (Z.of_nat k + 1))%num.
Proof.
  intros pv k Hinc Hk.
  rewrite calculateEarnedSchedule_fin. simpl.
  now apply es_q_on_plan.
Qed.

Lemma X2_witness :
  increasing [10; 25; 45; 70] = true /\
  (2 < List.length [10; 25; 45; 70])%nat /\
  (calculateEarnedSchedule (Some (Fin (nth 2 [10; 25; 45; 70] 0)))
     (qs [10; 25; 45; 70])
   == of_Z (Z.of_nat 2 + 1))%num.
Proof.
  split; [reflexivity | split; [simpl; lia |]].
  apply (X2_ES_at_planned_point [10; 25; 45; 70] 2);
    [reflexivity | simpl; lia].
Defined.

(** X3.  A project exactly on its plan is reported one period ahead: when
    the planned values grow in every period and the latest earned value
    equals the planned value at the index [actualTime], ES is
    [actualTime + 1] and the record shows SV_t = "1.00". *)
Theorem X3_on_plan_shows_one_period_ahead :
  forall (pv : list Q) (evValues : list num) (actualTime : Z)
         (milestoneDuration replanTime : option Z),
    increasing pv = true ->
    (0 <= actualTime < alen pv)%Z ->
    alast evValues = Some (Fin (nth (Z.to_nat actualTime) pv 0)) ->
    let m := calculateMetrics (qs pv) evValues actualTime
               milestoneDuration replanTime in
    ES m = Some (toFixed 2 (of_Z (actualTime + 1))) /\
    SV_t m = Some "1.00"%string.
Proof.
  intros pv evValues actualTime md rt Hinc Hat Hlast m.
  assert (HES : (calculateEarnedSchedule (alast evValues) (qs pv)
                 == of_Z (actualTime + 1))%num).
  { rewrite Hlast, calculateEarnedSchedule_fin.
    unfold of_Z, num_eq.
    rewrite (es_q_on_plan pv (Z.to_nat actualTime) Hinc)
      by (unfold alen in Hat; lia).
    apply inject_Z_injective. lia. }
  assert (HSV : toFixed 2 (calculateEarnedSchedule (alast evValues) (qs pv)
                           - of_Z actualTime)%num = "1.00"%string).
  { destruct (num_eq_fin_inv _ _ HES) as (a & Ha & Haq).
    rewrite Ha.
    rewrite (toFixed_comp 2 (Fin a - of_Z actualTime)%num (Fin 1)).
    - reflexivity.
    - unfold of_Z, sub, neg, add, num_eq. rewrite Haq, inject_Z_plus.
      change (inject_Z 1) with 1. ring. }
  subst m. unfold calculateMetrics. cbv zeta.
  destruct md as [md|], rt as [rt|];
    cbn [ES SV_t set_milestone set_replan];
    (split; [f_equal; apply toFixed_comp; exact HES | f_equal; exact HSV]).
Qed.

Lemma X3_witness :
  increasing [10; 25; 45; 70] = true /\
  (0 <= 3 < alen [10; 25; 45; 70])%Z /\
  alast (qs [10; 25; 45; 70])
  = Some (Fin (nth (Z.to_nat 3) [10; 25; 45; 70] 0)) /\
  SV_t (calculateMetrics (qs [10; 25; 45; 70]) (qs [10; 25; 45; 70]) 3
          (Some 10%Z) None)
  = Some "1.00"%string.
Proof.
  assert (H : (0 <= 3 < alen [10; 25; 45; 70])%Z)
    by (unfold alen; simpl; lia).
  split; [reflexivity | split; [exact H | split; [reflexivity |]]].
  apply (X3_on_plan_shows_one_period_ahead [10; 25; 45; 70]
           (qs [10; 25; 45; 70]) 3 (Some 10%Z) None eq_refl H eq_refl).
Defined.

Lemma filter_le_all_gt (ev : Q) (l : list Q) :
  (forall x, In x l -> ev < x) ->
  filter (fun p => Qle_bool p ev) l = [].
Proof.
  induction l as [|p r IH]; intro H; [reflexivity|].
  simpl. destruct (Qle_bool p ev) eqn:E.
  - apply Qle_bool_iff in E. specialize (H p (or_introl eq_refl)). lra.
  - apply IH. intros x Hx. apply H. now right.
Qed.

Lemma pos_gt_count (ev : Q) (l : list Q) :
  nondecreasing l = true ->
  pos_gt ev l = List.length (filter (fun p => Qle_bool p ev) l).
Proof.
  induction l as [|p r IH]; intro Hs; [reflexivity|].
  pose proof (nondecreasing_tail _ _ Hs) as Ht.
  pose proof (nondecreasing_head _ _ Hs) as Hh.
  unfold pos_gt in *. cbn [first_gt filter].
  destruct (Qltb ev p) eqn:E.
  - assert (Hp : Qle_bool p ev = false).
    { apply not_true_iff_false. rewrite Qle_bool_iff.
      apply Qltb_lt in E. lra. }
    rewrite Hp, filter_le_all_gt; [reflexivity|].
    intros x Hx. apply Qltb_lt in E. specialize (Hh x Hx). lra.
  - assert (Hp : Qle_bool p ev = true).
    { apply Qle_bool_iff. now apply Qltb_ge. }
    rewrite Hp. cbn [List.length]. rewrite <- (IH Ht).
    destruct (first_gt ev r); reflexivity.
Qed.

(** X4.  On a non-decreasing series the earned schedule lies between
    the number of periods whose planned value has been earned and the
    next whole period: with [n] entries of [pv] at or below [ev], the
    result is at least [n] and at most [n + 1]. *)
Theorem X4_ES_between_earned_periods_and_the_next :
  forall (pv : list Q) (ev : Q),
    nondecreasing pv = true ->
    exists t : Q,
      calculateEarnedSchedule (Some (Fin ev)) (qs pv) = Fin t /\
      inject_Z (Z.of_nat (List.length (filter (fun p => Qle_bool p ev) pv)))
      <= t /\
      t <= inject_Z
             (Z.of_nat (List.length (filter (fun p => Qle_bool p ev) pv)))
           + 1.
Proof.
  intros pv ev Hs.
  destruct (num_eq_fin_inv _ _ (calculateEarnedSchedule_fin ev pv))
    as (t & Ht & Hte).
  exists t. split; [exact Ht|].
  rewrite <- (pos_gt_count ev pv Hs), Hte.
  destruct (es_q_segment ev pv) as (L & U & _).
  split; [exact L | apply Qlt_le_weak; exact U].
Qed.

Lemma X4_witness :
  nondecreasing [10; 25; 45; 70] = true /\
  exists t : Q,
    calculateEarnedSchedule (Some (Fin 38)) (qs [10; 25; 45; 70]) = Fin t /\
    inject_Z 2 <= t /\ t <= inject_Z 2 + 1.
Proof.
  split; [reflexivity|].
  apply (X4_ES_between_earned_periods_and_the_next [10; 25; 45; 70] 38).
  reflexivity.
Defined.

End EarnedScheduleMore.

(* ================================================================== *)
(** ** Further properties of [calculateMetrics] *)

Section MetricsMore.

Local Open Scope Q_scope.

Lemma slice_0 {A : Type} (l : list A) : slice l 0 = l.
Proof.
  unfold slice. cbv zeta. change (0 <? 0)%Z with false. cbv iota.
  rewrite Z.min_l by (unfold alen; lia). reflexivity.
Qed.

(** X6.  The post-replan index falls back on the overall one when the
    re-plan time is not before the actual time, and coincides with it
    when the re-plan time is 0: in both cases the record shows the same
    string for SPI_t_rem and SPI_t. *)
Theorem X6_replan_index_equals_overall_index :
  forall (pvValues evValues : list num) (actualTime rt : Z)
         (milestoneDuration : option Z),
    (rt = 0 \/ actualTime <= rt)%Z ->
    let m := calculateMetrics pvValues evValues actualTime
               milestoneDuration (Some rt) in
    SPI_t_rem m = SPI_t m.
Proof.
  intros pvValues evValues actualTime rt md Hrt m.
  assert (Hv : SPI_t_rem_value pvValues evValues
                 (SPI_t_value
                    (calculateEarnedSchedule (alast evValues) pvValues)
                    actualTime) actualTime rt
               = SPI_t_value
                   (calculateEarnedSchedule (alast evValues) pvValues)
                   actualTime).
  { unfold SPI_t_rem_value.
    destruct (Z.gtb_spec actualTime rt) as [Hgt|Hle]; [|reflexivity].
    destruct Hrt as [->|Hge]; [|lia].
    cbv zeta. rewrite !slice_0, Z.sub_0_r.
    destruct ((actualTime >? 0)%Z && (alen evValues >? 0)%Z) eqn:E;
      [|reflexivity].
    apply andb_prop in E. destruct E as [E _].
    unfold SPI_t_value. now rewrite E. }
  subst m. unfold calculateMetrics. cbv zeta.
  destruct md as [md|]; cbn [SPI_t SPI_t_rem set_milestone set_replan];
    now rewrite Hv.
Qed.

Lemma X6_witness :
  (3 = 0 \/ 3 <= 3)%Z /\
  SPI_t_rem (calculateMetrics demo_PV demo_EV 3 (Some 10%Z) (Some 3%Z))
  = SPI_t (calculateMetrics demo_PV demo_EV 3 (Some 10%Z) (Some 3%Z)).
Proof.
  assert (H : (3 = 0 \/ 3 <= 3)%Z) by (right; lia).
  split; [exact H|].
  apply (X6_replan_index_equals_overall_index demo_PV demo_EV 3 3
           (Some 10%Z) H).
Defined.

(** X7.  At period 0 the forecast is the plan: for every pair of series
    the record shows SPI_t = "1.00", the milestone duration itself as
    IEAC_t_M, and F_SV_t = "0.00". *)
Theorem X7_period_zero_forecast_is_the_plan :
  forall (pvValues evValues : list num) (md : Z) (replanTime : option Z),
    let m := calculateMetrics pvValues evValues 0 (Some md) replanTime in
    SPI_t m = Some "1.00"%string /\
    IEAC_t_M m = Some (toFixed 2 (of_Z md)) /\
    F_SV_t m = Some "0.00"%string.
Proof.
  intros pvValues evValues md replanTime m.
  assert (HI : (IEAC_t_M_value (of_Z 1) md == of_Z md)%num).
  { unfold IEAC_t_M_value, of_Z. simpl. field. }
  assert (HF : ((of_Z md - IEAC_t_M_value (of_Z 1) md) == Fin 0)%num).
  { destruct (num_eq_fin_inv _ _ HI) as (a & Ha & Haq). rewrite Ha.
    unfold of_Z, sub, neg, add, num_eq. rewrite Haq. ring. }
  subst m. unfold calculateMetrics. cbv zeta.
  change (SPI_t_value (calculateEarnedSchedule (alast evValues) pvValues) 0)
    with (of_Z 1).
  destruct replanTime as [rt|];
    cbn [SPI_t IEAC_t_M F_SV_t set_milestone set_replan];
    (split; [reflexivity | split;
      [f_equal; apply toFixed_comp; exact HI
      | f_equal; apply (toFixed_comp 2 _ (Fin 0) HF)]]).
Qed.

(** X8.  Nothing earned yet: when the latest earned value is below the
    first planned value and the actual time is positive, the record shows
    ES = "0.00" and SPI_t = "0.00", the milestone forecast IEAC_t_M is
    "Infinity" and F_SV_t is "-Infinity". *)
Theorem X8_nothing_earned_gives_unbounded_forecast :
  forall (pv : list Q) (evValues : list num) (e : Q) (actualTime md : Z)
         (replanTime : option Z),
    pv <> [] ->
    alast evValues = Some (Fin e) ->
    e < nth 0 pv 0 ->
    (0 < actualTime)%Z ->
    let m := calculateMetrics (qs pv) evValues actualTime (Some md)
               replanTime in
    ES m = Some "0.00"%string /\
    SPI_t m = Some "0.00"%string /\
    IEAC_t_M m = Some "Infinity"%string /\
    F_SV_t m = Some "-Infinity"%string.
Proof.
  intros pv evValues e actualTime md replanTime Hne Hlast He Hat m.
  assert (HES : (calculateEarnedSchedule (alast evValues) (qs pv)
                 == Fin 0)%num).
  { rewrite Hlast, calculateEarnedSchedule_fin. unfold num_eq, es_q.
    destruct pv as [|p r]; [congruence|].
    simpl in He. simpl. apply Qltb_lt in He. rewrite He. reflexivity. }
  destruct (num_eq_fin_inv _ _ HES) as (a & Ha & Haq).
  assert (Hz : ~ inject_Z actualTime == 0).
  { change 0 with (inject_Z 0). rewrite inject_Z_injective. lia. }
  assert (HSPI : SPI_t_value (Fin a) actualTime
                 = Fin (a / inject_Z actualTime)).
  { unfold SPI_t_value.
    destruct (Z.gtb_spec actualTime 0) as [_|H]; [|lia].
    unfold of_Z, div.
    destruct (Qeq_bool (inject_Z actualTime) 0) eqn:E; [|reflexivity].
    apply Qeq_bool_iff in E. contradiction. }
  assert (Hq : a / inject_Z actualTime == 0).
  { rewrite Haq. field. exact Hz. }
  assert (HI : IEAC_t_M_value (Fin (a / inject_Z actualTime)) md = PInf).
  { unfold IEAC_t_M_value, of_Z, gtb. cbn [ltb].
    assert (E : Qltb (inject_Z 0) (a / inject_Z actualTime) = false).
    { apply Qltb_ge. rewrite Hq. apply Qle_refl. }
    now rewrite E. }
  subst m. unfold calculateMetrics. cbv zeta. rewrite Ha, HSPI, HI.
  destruct replanTime as [rt|];
    cbn [ES SPI_t IEAC_t_M F_SV_t set_milestone set_replan];
    (split; [f_equal; apply (toFixed_comp 2 (Fin a) (Fin 0) Haq)
            | split; [f_equal;
                      apply (toFixed_comp 2 (Fin (a / inject_Z actualTime))
                               (Fin 0) Hq)
                     | split; reflexivity]]).
Qed.

Lemma X8_witness :
  [10; 20] <> [] /\
  alast (qs [5; 5]) = Some (Fin 5) /\
  5 < nth 0 [10; 20] 0 /\
  (0 < 1)%Z /\
  IEAC_t_M (calculateMetrics (qs [10; 20]) (qs [5; 5]) 1 (Some 4%Z) None)
  = Some "Infinity"%string.
Proof.
  assert (H1 : [10; 20] <> []) by discriminate.
  assert (H2 : 5 < nth 0 [10; 20] 0) by reflexivity.
  assert (H3 : (0 < 1)%Z) by lia.
  split; [exact H1 | split; [reflexivity | split; [exact H2 |
    split; [exact H3 |]]]].
  apply (X8_nothing_earned_gives_unbounded_forecast [10; 20] (qs [5; 5]) 5
           1 4 None H1 eq_refl H2 H3).
Defined.

(** X9.  The indicators never contradict each other: for a rational ES
    and 0 < actualTime < milestoneDuration, when ES >= actualTime the
    values computed by [calculateMetrics] satisfy SPI_t >= 1, SV_t >= 0,
    TSPI_M <= 1 and F_SV_t >= 0; when ES <= actualTime they satisfy
    SPI_t <= 1, SV_t <= 0, TSPI_M >= 1 and F_SV_t <= 0. *)
Theorem X9_indicators_never_contradict_each_other :
  forall (e : Q) (actualTime md : Z),
    (0 < actualTime)%Z ->
    (actualTime < md)%Z ->
    let SPI := SPI_t_value (Fin e) actualTime in
    let SV := (Fin e - of_Z actualTime)%num in
    let TSPI := TSPI_M_value (Fin e) actualTime md in
    let FSV := (of_Z md - IEAC_t_M_value SPI md)%num in
    (inject_Z actualTime <= e ->
     (of_Z 1 <=? SPI)%num = true /\
     (of_Z 0 <=? SV)%num = true /\
     (TSPI <=? of_Z 1)%num = true /\
     (of_Z 0 <=? FSV)%num = true) /\
    (e <= inject_Z actualTime ->
     (SPI <=? of_Z 1)%num = true /\
     (SV <=? of_Z 0)%num = true /\
     (of_Z 1 <=? TSPI)%num = true /\
     (FSV <=? of_Z 0)%num = true).
Proof.
  intros e actualTime md Hat Hmd SPI SV TSPI FSV.
  assert (Ha : 0 < inject_Z actualTime).
  { change 0 with (inject_Z 0). rewrite <- Zlt_Qlt. exact Hat. }
  assert (Hm : inject_Z actualTime < inject_Z md).
  { rewrite <- Zlt_Qlt. exact Hmd. }
  assert (Hmd0 : 0 < inject_Z md) by lra.
  assert (HSPI : SPI = Fin (e / inject_Z actualTime)).
  { unfold SPI, SPI_t_value.
    destruct (Z.gtb_spec actualTime 0) as [_|H]; [|lia].
    unfold of_Z. apply div_fin. lra. }
  assert (HSV : SV = Fin (e - inject_Z actualTime)) by reflexivity.
  assert (HTSPI : TSPI = Fin ((inject_Z md - e)
                              / (inject_Z md - inject_Z actualTime))).
  { unfold TSPI, TSPI_M_value.
    destruct (Z.eqb_spec md actualTime) as [H|_]; [lia|]. cbn [negb].
    unfold of_Z. apply div_sub_fin. lra. }
  assert (HFSV : FSV = if Qltb 0 (e / inject_Z actualTime)
                       then Fin (inject_Z md
                                 - inject_Z md / (e / inject_Z actualTime))
                       else NInf).
  { unfold FSV. rewrite HSPI. unfold IEAC_t_M_value, of_Z, gtb. cbn [ltb].
    change (inject_Z 0) with 0.
    destruct (Qltb 0 (e / inject_Z actualTime)) eqn:Epos; [|reflexivity].
    apply Qltb_lt in Epos. rewrite div_fin by lra. reflexivity. }
  rewrite HSPI, HSV, HTSPI, HFSV. unfold of_Z.
  change (inject_Z 0) with 0. change (inject_Z 1) with 1.
  set (s := e / inject_Z actualTime).
  split; intro He.
  - assert (Hs : 1 <= s) by (apply Qle_shift_div_l; [exact Ha | lra]).
    cbn [leb].
    split; [now apply Qle_bool_iff|].
    split; [apply Qle_bool_iff; lra|].
    split; [apply Qle_bool_iff; apply Qle_shift_div_r; lra|].
    destruct (Qltb 0 s) eqn:Epos.
    + cbn [leb]. apply Qle_bool_iff.
      assert (H' : inject_Z md / s <= inject_Z md)
        by (apply Qle_shift_div_r; [lra | nra]).
      lra.
    + apply Qltb_ge in Epos. lra.
  - assert (Hs : s <= 1) by (apply Qle_shift_div_r; [exact Ha | lra]).
    cbn [leb].
    split; [now apply Qle_bool_iff|].
    split; [apply Qle_bool_iff; lra|].
    split; [apply Qle_bool_iff; apply Qle_shift_div_l; lra|].
    destruct (Qltb 0 s) eqn:Epos.
    + cbn [leb]. apply Qle_bool_iff. apply Qltb_lt in Epos.
      assert (H' : inject_Z md <= inject_Z md / s)
        by (apply Qle_shift_div_l; [exact Epos | nra]).
      lra.
    + reflexivity.
Qed.

Lemma X9_witness :
  (0 < 3)%Z /\ (3 < 10)%Z /\ 265 # 100 <= inject_Z 3 /\
  (SPI_t_value (Fin (265 # 100)) 3 <=? of_Z 1)%num = true /\
  (Fin (265 # 100) - of_Z 3 <=? of_Z 0)%num = true /\
  (of_Z 1 <=? TSPI_M_value (Fin (265 # 100)) 3 10)%num = true /\
  (of_Z 10 - IEAC_t_M_value (SPI_t_value (Fin (265 # 100)) 3) 10
   <=? of_Z 0)%num = true.
Proof.
  assert (H1 : (0 < 3)%Z) by lia.
  assert (H2 : (3 < 10)%Z) by lia.
  assert (H3 : 265 # 100 <= inject_Z 3) by (vm_compute; discriminate).
  split; [exact H1 | split; [exact H2 | split; [exact H3 |]]].
  apply (proj2 (X9_indicators_never_contradict_each_other
                  (265 # 100) 3 10 H1 H2) H3).
Defined.

End MetricsMore.

(* ================================================================== *)
(** ** Invariants of a run of the simulation *)

Section Run.

Local Open Scope Z_scope.

Lemma runSteps_preserves (P : sim -> Prop) :
  (forall s, P s -> P (runStep s)) ->
  forall N s, P s -> P (runSteps N s).
Proof.
  intros Hstep N. induction N as [|N IH]; intros s Hs; [exact Hs|].
  cbn [runSteps]. apply IH, Hstep, Hs.
Qed.

Lemma runStep_frame (s : sim) :
  scenario (runStep s) = scenario s /\
  milestoneDuration (runStep s) = milestoneDuration s /\
  replanTime (runStep s) = replanTime s /\
  initialPV (runStep s) = initialPV s /\
  initialEV (runStep s) = initialEV s /\
  initialAT (runStep s) = initialAT s.
Proof.
  unfold runStep. destruct (currentStep s >=? maxSteps s);
    repeat split; reflexivity.
Qed.

Lemma runStep_currentMetrics (s : sim) :
  currentStep s < maxSteps s ->
  currentMetrics (runStep s)
  = calculateMetrics (currentPV (runStep s)) (currentEV (runStep s))
      (currentAT (runStep s)) (Some (milestoneDuration s)) (replanTime s).
Proof.
  intro H. unfold runStep. rewrite geb_effective by exact H. reflexivity.
Qed.

Lemma periods_from_succ (AT k : Z) :
  0 <= k -> periods_from AT (k + 1) = periods_from AT k ++ [AT + (k + 1)].
Proof.
  intro Hk. unfold periods_from.
  replace (Z.to_nat (k + 1)) with (S (Z.to_nat k)) by lia.
  rewrite seq_S, map_app. cbn [map]. do 3 f_equal. lia.
Qed.

Lemma alen_extendPV (l : list num) (n : Z) :
  alen (extendPV l n) = if alen l <=? n then alen l + 1 else alen l.
Proof.
  unfold extendPV. destruct (alen l <=? n); [apply alen_snoc | reflexivity].
Qed.

Lemma extendPV_suffix (l : list num) (n : Z) :
  exists ext, extendPV l n = l ++ ext /\ alen ext <= 1.
Proof.
  unfold extendPV. destruct (alen l <=? n).
  - eexists. split; [reflexivity | unfold alen; simpl; lia].
  - exists []. split; [now rewrite app_nil_r | unfold alen; simpl; lia].
Qed.

Lemma runStep_run_inv (pv ev : list num) (AT md steps : Z) (scen : string)
  (rt : option Z) (s : sim) :
  run_inv pv ev AT md steps scen rt s ->
  run_inv pv ev AT md steps scen rt (runStep s).
Proof.
  intros (Hm & Hc & Hsc & Hmd & Hrt & Hip & Hie & Hia & Hat & Hper & Hev
          & (ext & Hpv & Hext) & Hmet).
  destruct (Z_lt_ge_dec (currentStep s) (maxSteps s)) as [Hlt|Hge].
  - destruct (runStep_frame s) as (F1 & F2 & F3 & F4 & F5 & F6).
    destruct (runStep_results s Hlt) as (Rp & _ & Re & _).
    unfold run_inv.
    rewrite runStep_maxSteps, F1, F2, F3, F4, F5, F6.
    rewrite (runStep_currentMetrics s Hlt), Hmd, Hrt.
    rewrite Rp, Re, (runStep_currentStep s Hlt), (runStep_currentAT s Hlt),
      (runStep_currentEV s Hlt), (runStep_currentPV s Hlt).
    repeat split; try assumption; try lia.
    + rewrite Hat, Hper, periods_from_succ by lia. do 2 f_equal. lia.
    + rewrite Hev, <- app_assoc. reflexivity.
    + destruct (extendPV_suffix (currentPV s) (currentAT s + 1))
        as (e1 & He1 & Hl1).
      exists (ext ++ e1). split.
      * rewrite He1, Hpv, <- app_assoc. reflexivity.
      * unfold alen in *. rewrite length_app. lia.
  - rewrite runStep_complete by exact Hge.
    unfold run_inv. cbn [report_complete maxSteps currentStep scenario
      milestoneDuration replanTime initialPV initialEV initialAT currentAT
      simulationResults currentEV currentPV currentMetrics].
    repeat split; try assumption; try lia.
    exists ext. split; assumption.
Qed.

Lemma init_run_inv (this : sim) (pv ev : list num) (AT md steps : Z)
  (scen : string) (replan : bool) :
  0 <= steps ->
  run_inv pv ev AT md steps scen (if replan then Some AT else None)
    (initSimulation this pv ev AT md steps scen replan).
Proof.
  intro H. unfold run_inv.
  cbn [initSimulation maxSteps currentStep scenario milestoneDuration
       replanTime initialPV initialEV initialAT currentAT simulationResults
       currentEV currentPV currentMetrics empty_results periods evValues].
  repeat split; try reflexivity; try lia.
  - now rewrite app_nil_r.
  - exists []. split; [now rewrite app_nil_r | unfold alen; simpl; lia].
Qed.

Lemma runStep_covered (s : sim) : covered s -> covered (runStep s).
Proof.
  intros (H0 & Hlen & Hlog).
  destruct (Z_lt_ge_dec (currentStep s) (maxSteps s)) as [Hlt|Hge].
  - destruct (runStep_results s Hlt) as (_ & Rv & _ & _).
    unfold covered.
    rewrite Rv, (runStep_currentAT s Hlt), (runStep_currentPV s Hlt),
      alen_extendPV.
    assert (Hl : currentAT s + 1 + 1
                 <= (if alen (currentPV s) <=? currentAT s + 1
                     then alen (currentPV s) + 1 else alen (currentPV s))).
    { destruct (Z.leb_spec (alen (currentPV s)) (currentAT s + 1)); lia. }
    split; [lia | split; [exact Hl|]].
    intro Hin. apply in_app_or in Hin. destruct Hin as [Hin|[Hin|[]]];
      [now apply Hlog|].
    unfold aget in Hin.
    destruct (Z.ltb_spec (currentAT s + 1) 0) as [H|_]; [lia|].
    apply nth_error_None in Hin.
    assert (Hlen' : alen (extendPV (currentPV s) (currentAT s + 1))
                    <= currentAT s + 1) by (unfold alen; lia).
    rewrite alen_extendPV in Hlen'. lia.
  - rewrite runStep_complete by exact Hge. exact (conj H0 (conj Hlen Hlog)).
Qed.

Lemma init_log_in_step (this : sim) (pv ev : list num) (AT md steps : Z)
  (scen : string) (replan : bool) :
  0 <= steps ->
  log_in_step (initSimulation this pv ev AT md steps scen replan).
Proof.
  intro H. unfold log_in_step. cbn. repeat split; try reflexivity; lia.
Qed.

Lemma init_counter (this : sim) (pv ev : list num) (AT md steps : Z)
  (scen : string) (replan : bool) (N : nat) :
  0 <= steps ->
  currentStep (runSteps N (initSimulation this pv ev AT md steps scen replan))
  = Z.min (Z.of_nat N) steps.
Proof.
  intro H.
  destruct (runSteps_counter N _
              (init_log_in_step this pv ev AT md steps scen replan H))
    as (Hc & _ & _).
  rewrite Hc. reflexivity.
Qed.

(** X10.  A run keeps what it was initialised with and moves the period
    pointer with the step counter: after N calls of [runStep] from
    [initSimulation] with [steps >= 0], the scenario, the milestone
    duration, the re-plan time and the number of steps are unchanged, the
    current period is [actualTime + min(N, steps)], and the periods
    logged are [actualTime + 1, ..., actualTime + min(N, steps)]. *)
Theorem X10_run_keeps_parameters_and_period_pointer :
  forall (this : sim) (pv ev : list num) (AT md steps : Z) (scen : string)
         (replan : bool) (N : nat),
    0 <= steps ->
    let s := runSteps N (initSimulation this pv ev AT md steps scen replan) in
    let k := Z.min (Z.of_nat N) steps in
    currentAT s = AT + k /\
    periods (simulationResults s) = periods_from AT k /\
    scenario s = scen /\
    milestoneDuration s = md /\
    replanTime s = (if replan then Some AT else None) /\
    maxSteps s = steps.
Proof.
  intros this pv ev AT md steps scen replan N Hsteps s k.
  pose proof (runSteps_preserves _
                (runStep_run_inv pv ev AT md steps scen
                   (if replan then Some AT else None)) N _
                (init_run_inv this pv ev AT md steps scen replan Hsteps))
    as Hinv.
  fold s in Hinv.
  destruct Hinv as (Hm & _ & Hsc & Hmd & Hrt & _ & _ & _ & Hat & Hper & _).
  pose proof (init_counter this pv ev AT md steps scen replan N Hsteps) as Hc.
  fold s in Hc. fold k in Hc. rewrite Hc in Hat, Hper.
  repeat split; assumption.
Qed.

Lemma X10_witness :
  0 <= 2 /\
  currentAT (runSteps 5 (demo_sim 2 "slippage" true)) = 3 + Z.min 5 2 /\
  replanTime (runSteps 5 (demo_sim 2 "slippage" true)) = Some 3.
Proof.
  assert (H : 0 <= 2) by lia.
  pose proof (X10_run_keeps_parameters_and_period_pointer
                (constructor "" "") demo_PV demo_EV 3 10 2
                "slippage"%string true 5 H) as (H1 & _ & _ & _ & H2 & _).
  split; [exact H | split; [exact H1 | exact H2]].
Defined.

(** X11.  The series only grow at the end: after any number of calls of
    [runStep] the EV array is the initial EV series followed by the EV
    values of the log, and the PV array is the initial PV series followed
    by at most one extrapolated value per effective step. *)
Theorem X11_series_grow_at_the_end :
  forall (this : sim) (pv ev : list num) (AT md steps : Z) (scen : string)
         (replan : bool) (N : nat),
    0 <= steps ->
    let s := runSteps N (initSimulation this pv ev AT md steps scen replan) in
    let k := Z.min (Z.of_nat N) steps in
    currentEV s = ev ++ evValues (simulationResults s) /\
    alen (currentEV s) = alen ev + k /\
    exists ext, currentPV s = pv ++ ext /\ alen ext <= k.
Proof.
  intros this pv ev AT md steps scen replan N Hsteps s k.
  pose proof (runSteps_preserves _
                (runStep_run_inv pv ev AT md steps scen
                   (if replan then Some AT else None)) N _
                (init_run_inv this pv ev AT md steps scen replan Hsteps))
    as Hinv.
  fold s in Hinv.
  destruct Hinv as (_ & _ & _ & _ & _ & _ & _ & _ & _ & _ & Hev & Hpv & _).
  pose proof (init_counter this pv ev AT md steps scen replan N Hsteps) as Hc.
  destruct (runSteps_counter N _
              (init_log_in_step this pv ev AT md steps scen replan Hsteps))
    as (_ & _ & (_ & _ & _ & Hle & _)).
  fold s in Hc, Hle. fold k in Hc. rewrite Hc in Hpv, Hle.
  split; [exact Hev | split; [|exact Hpv]].
  rewrite Hev. unfold alen in *. rewrite length_app. lia.
Qed.

Lemma X11_witness :
  0 <= 2 /\
  currentEV (runSteps 2 (demo_sim 2 "recovery" false))
  = demo_EV
    ++ evValues (simulationResults (runSteps 2 (demo_sim 2 "recovery" false))).
Proof.
  assert (H : 0 <= 2) by lia.
  pose proof (X11_series_grow_at_the_end
                (constructor "" "") demo_PV demo_EV 3 10 2
                "recovery"%string false 2 H) as (H1 & _).
  split; [exact H | exact H1].
Defined.

(** X12.  The metrics are always those of the current series: after any
    number of calls of [runStep] the current metrics record is
    [calculateMetrics] of the current PV and EV arrays at the current
    period, and it is the last record of the log when the log is not
    empty. *)
Theorem X12_metrics_are_those_of_the_current_series :
  forall (this : sim) (pv ev : list num) (AT md steps : Z) (scen : string)
         (replan : bool) (N : nat),
    0 <= steps ->
    let s := runSteps N (initSimulation this pv ev AT md steps scen replan) in
    currentMetrics s
    = calculateMetrics (currentPV s) (currentEV s) (currentAT s)
        (Some md) (if replan then Some AT else None) /\
    last (metrics (simulationResults s)) (currentMetrics s)
    = currentMetrics s.
Proof.
  intros this pv ev AT md steps scen replan N Hsteps s.
  pose proof (runSteps_preserves _
                (runStep_run_inv pv ev AT md steps scen
                   (if replan then Some AT else None)) N _
                (init_run_inv this pv ev AT md steps scen replan Hsteps))
    as Hinv.
  fold s in Hinv.
  destruct Hinv as (_ & _ & _ & _ & _ & _ & _ & _ & _ & _ & _ & _ & Hmet).
  split; [exact Hmet|].
  apply (runSteps_preserves
           (fun s => last (metrics (simulationResults s)) (currentMetrics s)
                     = currentMetrics s)).
  - intros s0 H0.
    destruct (Z_lt_ge_dec (currentStep s0) (maxSteps s0)) as [Hlt|Hge].
    + destruct (runStep_results s0 Hlt) as (_ & _ & _ & Rm).
      rewrite Rm. apply last_last.
    + rewrite runStep_complete by exact Hge. exact H0.
  - reflexivity.
Qed.

Lemma X12_witness :
  0 <= 2 /\
  last (metrics (simulationResults (runSteps 2 (demo_sim 2 "recovery" false))))
    (currentMetrics (runSteps 2 (demo_sim 2 "recovery" false)))
  = currentMetrics (runSteps 2 (demo_sim 2 "recovery" false)).
Proof.
  assert (H : 0 <= 2) by lia.
  pose proof (X12_metrics_are_those_of_the_current_series
                (constructor "" "") demo_PV demo_EV 3 10 2
                "recovery"%string false 2 H) as (_ & H1).
  split; [exact H | exact H1].
Defined.

(** X13.  When the initial PV series covers the current period
    ([0 <= actualTime < pv.length]), the PV array covers the current period
    after every call of [runStep], and no PV value of the log is
    [undefined]. *)
Theorem X13_covered_plan_never_logs_undefined :
  forall (this : sim) (pv ev : list num) (AT md steps : Z) (scen : string)
         (replan : bool) (N : nat),
    0 <= AT ->
    AT + 1 <= alen pv ->
    let s := runSteps N (initSimulation this pv ev AT md steps scen replan) in
    currentAT s + 1 <= alen (currentPV s) /\
    ~ In None (pvValues (simulationResults s)).
Proof.
  intros this pv ev AT md steps scen replan N H0 Hlen s.
  assert (Hinit : covered (initSimulation this pv ev AT md steps scen replan)).
  { unfold covered. cbn. repeat split; try assumption. intros []. }
  destruct (runSteps_preserves _ runStep_covered N _ Hinit) as (_ & H).
  exact H.
Qed.

Lemma X13_witness :
  0 <= 3 /\ 3 + 1 <= alen demo_PV /\
  ~ In None
      (pvValues (simulationResults (runSteps 2 (demo_sim 2 "recovery" false)))).
Proof.
  assert (H0 : 0 <= 3) by lia.
  assert (H1 : 3 + 1 <= alen demo_PV) by (vm_compute; discriminate).
  split; [exact H0 | split; [exact H1 |]].
  apply (X13_covered_plan_never_logs_undefined
           (constructor "" "") demo_PV demo_EV 3 10 2
           "recovery"%string false 2 H0 H1).
Defined.

End Run.

(* ================================================================== *)
(** ** Edge cases of the earned schedule and of one step *)

Section Edges.

Local Open Scope Z_scope.

Lemma add_NaN_r (x : num) : (x + NaN)%num = NaN.
Proof. destruct x; reflexivity. Qed.

Lemma mul_NaN_r (x : num) : (x * NaN)%num = NaN.
Proof. destruct x; reflexivity. Qed.

Lemma sub_NaN_l (x : num) : (NaN - x)%num = NaN.
Proof. destruct x; reflexivity. Qed.

Lemma aget_beyond (l : list num) (i : Z) : alen l <= i -> aget l i = None.
Proof.
  intro H. unfold aget. destruct (i <? 0); [reflexivity|].
  apply nth_error_None. unfold alen in H. lia.
Qed.

(** X14.  A missing earned value counts as a finished plan: for every
    non-empty PV array, an earned value that is [undefined] (an empty EV
    array), NaN or +Infinity gives the earned schedule [pv.length]. *)
Theorem X14_missing_earned_value_gives_full_length :
  forall (evCum : jsval) (pvCum : list num),
    pvCum <> [] ->
    evCum = None \/ evCum = Some NaN \/ evCum = Some PInf ->
    calculateEarnedSchedule evCum pvCum = of_Z (alen pvCum).
Proof.
  intros evCum pvCum Hne Hev.
  assert (Hall : forall p, (p >? to_number evCum)%num = false).
  { intro p. destruct Hev as [-> | [-> | ->]]; destruct p; reflexivity. }
  unfold calculateEarnedSchedule. cbv zeta.
  rewrite (scan_C_never (to_number evCum) pvCum (fun p _ => Hall p) 0
             (alen pvCum)) by lia.
  destruct pvCum as [|p r]; [congruence|].
  destruct (Z.ltb_spec (alen (p :: r) - 1) 0) as [H|_];
    [unfold alen in H; simpl List.length in H; lia|].
  rewrite Z.eqb_refl. cbn [orb]. f_equal. lia.
Qed.

Lemma X14_witness :
  demo_PV <> [] /\
  (alast [] = None \/ alast [] = Some NaN \/ alast [] = Some PInf) /\
  calculateEarnedSchedule (alast []) demo_PV = of_Z (alen demo_PV).
Proof.
  assert (H1 : demo_PV <> []) by discriminate.
  assert (H2 : alast [] = None \/ alast [] = Some NaN \/ alast [] = Some PInf)
    by (left; reflexivity).
  split; [exact H1 | split; [exact H2 |]].
  apply (X14_missing_earned_value_gives_full_length (alast []) demo_PV H1 H2).
Defined.

(** X15.  A PV array that does not reach the current period is never
    caught up: in an effective step at a period [currentAT >= 0] with
    [currentPV.length <= currentAT], the PV logged is [undefined], the EV
    appended is NaN, and the PV array still does not reach the new
    period. *)
Theorem X15_short_plan_logs_undefined_and_NaN :
  forall this : sim,
    currentStep this < maxSteps this ->
    0 <= currentAT this ->
    alen (currentPV this) <= currentAT this ->
    pvValues (simulationResults (runStep this))
    = pvValues (simulationResults this) ++ [None] /\
    currentEV (runStep this) = currentEV this ++ [NaN] /\
    alen (currentPV (runStep this)) <= currentAT (runStep this).
Proof.
  intros this Hstep H0 Hshort.
  destruct (runStep_results this Hstep) as (_ & Rv & _ & _).
  assert (Hlen : alen (extendPV (currentPV this) (currentAT this + 1))
                 <= currentAT this + 1).
  { rewrite alen_extendPV.
    destruct (Z.leb_spec (alen (currentPV this)) (currentAT this + 1)); lia. }
  assert (Hget : aget (extendPV (currentPV this) (currentAT this + 1))
                   (currentAT this + 1) = None)
    by (apply aget_beyond; exact Hlen).
  rewrite Rv, (runStep_currentEV this Hstep), (runStep_currentPV this Hstep),
    (runStep_currentAT this Hstep), Hget.
  split; [reflexivity | split; [|exact Hlen]].
  unfold nextEV. cbv zeta. rewrite Hget. cbn [to_number].
  now rewrite sub_NaN_l, mul_NaN_r, add_NaN_r.
Qed.

Lemma X15_witness :
  currentStep (initSimulation (constructor "" "") (qs [10%Q; 25%Q])
                 (qs [8%Q; 20%Q]) 3 10 2 "recovery" false)
  < maxSteps (initSimulation (constructor "" "") (qs [10%Q; 25%Q])
                (qs [8%Q; 20%Q]) 3 10 2 "recovery" false) /\
  currentEV (runStep (initSimulation (constructor "" "") (qs [10%Q; 25%Q])
                        (qs [8%Q; 20%Q]) 3 10 2 "recovery" false))
  = qs [8%Q; 20%Q] ++ [NaN].
Proof.
  split; [reflexivity|].
  apply (X15_short_plan_logs_undefined_and_NaN
           (initSimulation (constructor "" "") (qs [10%Q; 25%Q])
              (qs [8%Q; 20%Q]) 3 10 2 "recovery" false));
    [reflexivity | discriminate | discriminate].
Defined.

Lemma sub_self_over_zero (p : num) : ((p - p) / of_Z 0)%num = NaN.
Proof.
  destruct p as [a| | |]; try reflexivity.
  unfold sub, neg, add, of_Z, div.
  change (Qeq_bool (inject_Z 0) 0) with true. cbv iota.
  unfold inf_of_sign, Qsgn.
  assert (E : Qnum (a + - a) = 0).
  { destruct a as [n d]. simpl. lia. }
  rewrite E. reflexivity.
Qed.

(** X16.  A plan of one period cannot be extrapolated: in an effective
    step at a period [currentAT >= 0] with a PV array of a single entry,
    the value appended to the PV array is NaN (0 / 0) and so is the EV
    appended. *)
Theorem X16_one_period_plan_extrapolates_to_NaN :
  forall (this : sim) (p : num),
    currentStep this < maxSteps this ->
    0 <= currentAT this ->
    currentPV this = [p] ->
    currentPV (runStep this) = [p; NaN] /\
    currentEV (runStep this) = currentEV this ++ [NaN].
Proof.
  intros this p Hstep H0 Hp.
  assert (Hext : extendPV [p] (currentAT this + 1) = [p; NaN]).
  { unfold extendPV.
    destruct (Z.leb_spec (alen [p]) (currentAT this + 1)) as [_|H];
      [|unfold alen in H; simpl in H; lia].
    cbv zeta. change (alast [p]) with (Some p).
    change (aget [p] 0) with (Some p). cbn [to_number].
    change (alen [p] - 1) with 0.
    now rewrite sub_self_over_zero, add_NaN_r. }
  rewrite (runStep_currentPV this Hstep), (runStep_currentEV this Hstep).
  rewrite Hp, Hext. split; [reflexivity|].
  unfold nextEV. cbv zeta. rewrite Hp, Hext.
  assert (Hinc : (to_number (aget [p; NaN] (currentAT this + 1))
                  - to_number (aget [p; NaN] (currentAT this + 1 - 1)))%num
                 = NaN).
  { destruct (Z.eq_dec (currentAT this) 0) as [->|Hnz].
    - change (to_number (aget [p; NaN] (0 + 1))) with NaN.
      apply sub_NaN_l.
    - rewrite (aget_beyond [p; NaN] (currentAT this + 1))
        by (unfold alen; simpl; lia).
      apply sub_NaN_l. }
  now rewrite Hinc, mul_NaN_r, add_NaN_r.
Qed.

Lemma X16_witness :
  currentStep (initSimulation (constructor "" "") (qs [10%Q]) (qs [8%Q])
                 0 10 2 "recovery" false)
  < maxSteps (initSimulation (constructor "" "") (qs [10%Q]) (qs [8%Q])
                0 10 2 "recovery" false) /\
  currentPV (runStep (initSimulation (constructor "" "") (qs [10%Q])
                        (qs [8%Q]) 0 10 2 "recovery" false))
  = [Fin 10%Q; NaN].
Proof.
  split; [reflexivity|].
  apply (X16_one_period_plan_extrapolates_to_NaN
           (initSimulation (constructor "" "") (qs [10%Q]) (qs [8%Q])
              0 10 2 "recovery" false) (Fin 10%Q));
    [reflexivity | discriminate | reflexivity].
Defined.

Lemma round_fixed_nonneg (f : nat) (q : Q) :
  (0 <= q)%Q -> (0 <= round_fixed f q)%Q.
Proof.
  intro Hq. unfold round_fixed. cbv zeta.
  assert (Hp : (0 < inject_Z (10 ^ Z.of_nat f))%Q).
  { change 0%Q with (inject_Z 0). rewrite <- Zlt_Qlt.
    apply Z.pow_pos_nonneg; lia. }
  assert (Hn : (0 <= inject_Z (Qfloor (Qabs q * inject_Z (10 ^ Z.of_nat f)
                                       + (1 # 2))))%Q).
  { change 0%Q with (inject_Z 0). rewrite <- Zle_Qle.
    apply Qfloor_nonneg.
    pose proof (Qabs_nonneg q) as Habs.
    assert (0 <= Qabs q * inject_Z (10 ^ Z.of_nat f))%Q
      by (apply Qmult_le_0_compat; lra).
    lra. }
  assert (E : Qltb q 0 = false) by (apply Qltb_ge; exact Hq).
  rewrite E. apply Qle_shift_div_l; [exact Hp | lra].
Qed.

Lemma target_rule_nonneg (scen : string) (r : Q) :
  (0 <= r)%Q -> (0 <= target_rule scen r)%Q.
Proof.
  intro Hr. unfold target_rule.
  destruct (String.eqb scen "recovery").
  - destruct (Q.min_spec 1 (r + (5 # 100))) as [[_ E]|[_ E]]; lra.
  - destruct (String.eqb scen "slippage"); [|exact Hr].
    destruct (Q.max_spec (7 # 10) (r - (3 # 100))) as [[H E]|[H E]]; lra.
Qed.

(** X18.  The simulated earned value never decreases: in an effective
    step, in every scenario, when the record holds the two-decimal string
    of an index [s >= 0], the last EV and the PV of the current and of
    the new period are rationals and the PV does not decrease, the EV
    appended is a rational that is at least the last EV. *)
Theorem X18_simulated_EV_never_decreases :
  forall (this : sim) (s e p0 p1 : Q),
    currentStep this < maxSteps this ->
    SPI_t (currentMetrics this) = Some (toFixed 2 (Fin s)) ->
    (0 <= s)%Q ->
    alast (currentEV this) = Some (Fin e) ->
    aget (currentPV (runStep this)) (currentAT this) = Some (Fin p0) ->
    aget (currentPV (runStep this)) (currentAT this + 1) = Some (Fin p1) ->
    (p0 <= p1)%Q ->
    exists e' : Q,
      alast (currentEV (runStep this)) = Some (Fin e') /\
      (e <= e')%Q.
Proof.
  intros this s e p0 p1 Hstep Hs Hs0 He Hp0 Hp1 Hle.
  destruct (runStep_nextEV_fin this s e p0 p1 Hstep Hs He Hp0 Hp1)
    as (v & -> & Hv).
  exists v. split; [apply alast_snoc|].
  pose proof (target_rule_nonneg (scenario this) _
                (round_fixed_nonneg 2 s Hs0)) as Ht.
  set (t := target_rule (scenario this) (round_fixed 2 s)) in *.
  rewrite Hv. nra.
Qed.

Lemma X18_witness :
  currentStep (demo_sim 2 "slippage" false)
  < maxSteps (demo_sim 2 "slippage" false) /\
  (0 <= 53 # 60)%Q /\
  exists e' : Q,
    alast (currentEV (runStep (demo_sim 2 "slippage" false)))
    = Some (Fin e') /\
    (38 <= e')%Q.
Proof.
  assert (H0 : (0 <= 53 # 60)%Q) by (vm_compute; discriminate).
  assert (H1 : (70 <= 270 # 3)%Q) by (vm_compute; discriminate).
  split; [reflexivity | split; [exact H0 |]].
  apply (X18_simulated_EV_never_decreases
           (demo_sim 2 "slippage" false) (53 # 60)%Q 38%Q 70%Q (270 # 3)%Q);
    [reflexivity | vm_compute; reflexivity | exact H0 | reflexivity
    | reflexivity | reflexivity | exact H1].
Defined.

End Edges.

(* ================================================================== *)
(** ** The autoplay *)

Section AutoPlay.

Local Open Scope Z_scope.

Lemma runStep_timer (s : sim) :
  let completes :=
    negb (currentStep s >=? maxSteps s)
    && (currentStep s + 1 >=? maxSteps s) in
  let timer := match simulationInterval s with
               | Some _ => true | None => false end in
  isRunning (runStep s) = (if completes && timer then false else isRunning s)
  /\ simulationInterval (runStep s)
     = (if completes && timer then None else simulationInterval s).
Proof.
  unfold runStep. destruct (currentStep s >=? maxSteps s); cbn; split;
    reflexivity.
Qed.

Lemma remove_single (id : Z) : remove Z.eq_dec id [id] = [].
Proof. simpl. destruct (Z.eq_dec id id); [reflexivity | congruence]. Qed.

Ltac timers_ok_cases Hid Hn :=
  split; [reflexivity | split; [reflexivity | split; [| exact Hn]]];
  let id' := fresh "id" in
  let H' := fresh "H" in
  intros id' H'; first [discriminate H' | apply Hid; exact H'].

Lemma page_runStep_timers_ok (p : page) :
  timers_ok p -> timers_ok (page_runStep p).
Proof.
  intros (Ht & Hr & Hid & Hn).
  destruct (runStep_timer (esSimulation p)) as (Rr & Ri).
  unfold timers_ok, page_runStep.
  cbn [esSimulation activeTimers nextTimerId].
  rewrite Rr, Ri, Ht, Hr.
  destruct (negb (currentStep (esSimulation p) >=? maxSteps (esSimulation p))
            && (currentStep (esSimulation p) + 1
                >=? maxSteps (esSimulation p)));
    destruct (simulationInterval (esSimulation p)) as [id|] eqn:E;
    cbn [andb clearInterval]; try rewrite remove_single;
    timers_ok_cases Hid Hn.
Qed.

Lemma startAutoPlay_timers_ok (p : page) :
  timers_ok p -> timers_ok (startAutoPlay p).
Proof.
  intros Hok. unfold startAutoPlay.
  destruct (isRunning (esSimulation p)) eqn:Erun; [exact Hok|].
  destruct Hok as (Ht & Hr & Hid & Hn).
  rewrite Erun in Hr.
  destruct (simulationInterval (esSimulation p)) as [id|] eqn:E;
    [discriminate|].
  cbv zeta.
  set (s1 := set_timer (esSimulation p) true None).
  destruct (runStep_timer s1) as (Rr & Ri).
  change (simulationInterval s1) with (@None Z) in Rr, Ri.
  rewrite andb_false_r in Rr, Ri.
  unfold timers_ok, page_runStep.
  cbn [esSimulation activeTimers nextTimerId set_timer simulationInterval
       isRunning].
  fold s1. rewrite Rr, Ht.
  change (simulationInterval s1) with (@None Z). cbn [clearInterval].
  repeat split; try lia.
  - destruct (negb (currentStep s1 >=? maxSteps s1)
              && (currentStep s1 + 1 >=? maxSteps s1)); reflexivity.
  - injection H as <-. exact Hn.
  - injection H as <-. lia.
Qed.

Lemma existsb_single (id id' : Z) :
  existsb (Z.eqb id) [id'] = (id =? id').
Proof. simpl. apply orb_false_r. Qed.

Lemma intervalCallback_timers_ok (p : page) (id : Z) :
  timers_ok p -> timers_ok (intervalCallback p id).
Proof.
  intros Hok. unfold intervalCallback.
  destruct (negb (existsb (Z.eqb id) (activeTimers p))); [exact Hok|].
  destruct (currentStep (esSimulation p) >=? maxSteps (esSimulation p));
    [|now apply page_runStep_timers_ok].
  destruct Hok as (Ht & Hr & Hid & Hn).
  unfold timers_ok.
  cbn [esSimulation activeTimers nextTimerId set_timer simulationInterval
       isRunning].
  rewrite Ht.
  destruct (simulationInterval (esSimulation p)) as [id0|];
    cbn [clearInterval]; try rewrite remove_single;
    timers_ok_cases Hid Hn.
Qed.

Lemma stopSimulation_timers_ok (p : page) :
  timers_ok p -> timers_ok (stopSimulation p).
Proof.
  intros (Ht & Hr & Hid & Hn).
  unfold timers_ok, stopSimulation.
  cbn [esSimulation activeTimers nextTimerId].
  rewrite Ht.
  assert (Hs : forall s', (s' = set_timer (esSimulation p) false None \/
                exists t c, s' = set_status
                                   (set_timer (esSimulation p) false None) t c)
               -> simulationInterval s' = None /\ isRunning s' = false).
  { intros s' [->|(t & c & ->)]; split; reflexivity. }
  destruct (Hs (if currentStep (esSimulation p) <? maxSteps (esSimulation p)
                then set_status (set_timer (esSimulation p) false None)
                       ("Simulation paused at step "
                        ++ string_of_Z (currentStep (esSimulation p))
                        ++ "/" ++ string_of_Z (maxSteps (esSimulation p))
                        ++ ".")%string
                       "alert alert-warning"%string
                else set_timer (esSimulation p) false None)) as (Hi & Hrun).
  { destruct (currentStep (esSimulation p) <? maxSteps (esSimulation p));
      [right; eauto | left; reflexivity]. }
  rewrite Hi, Hrun.
  destruct (simulationInterval (esSimulation p)) as [id0|];
    cbn [clearInterval]; try rewrite remove_single;
    timers_ok_cases Hid Hn.
Qed.

Lemma handle_timers_ok (p : page) (e : event) :
  timers_ok p -> timers_ok (handle p e).
Proof.
  intro Hok. destruct e; cbn [handle].
  - destruct Hok as (Ht & Hr & Hid & Hn).
    unfold timers_ok, page_initSimulation.
    cbn [esSimulation activeTimers nextTimerId initSimulation
         simulationInterval isRunning].
    exact (conj Ht (conj Hr (conj Hid Hn))).
  - now apply page_runStep_timers_ok.
  - now apply startAutoPlay_timers_ok.
  - now apply stopSimulation_timers_ok.
  - now apply intervalCallback_timers_ok.
Qed.

Lemma handle_all_timers_ok (textContent className label : string)
  (es : list event) :
  timers_ok (handle_all (new_page textContent className label) es).
Proof.
  unfold handle_all.
  assert (H0 : timers_ok (new_page textContent className label)).
  { unfold timers_ok, new_page. cbn.
    split; [reflexivity | split; [reflexivity | split;
      [intros i Hi; discriminate Hi | lia]]]. }
  revert H0. generalize (new_page textContent className label).
  induction es as [|e es IH]; intros p0 H0; [exact H0|].
  cbn [fold_left]. apply IH, handle_timers_ok, H0.
Qed.

(** X19.  One timer at most: after any sequence of events on a new page
    (initialisations, clicks on step, play and stop, firings of timers),
    the active timers are exactly the one the object holds in
    [simulationInterval], none when that is [null], and [isRunning] is
    true exactly when the object holds a timer. *)
Theorem X19_at_most_one_active_timer :
  forall (textContent className label : string) (es : list event),
    let p := handle_all (new_page textContent className label) es in
    activeTimers p
    = match simulationInterval (esSimulation p) with
      | Some id => [id]
      | None => []
      end /\
    isRunning (esSimulation p)
    = match simulationInterval (esSimulation p) with
      | Some _ => true
      | None => false
      end.
Proof.
  intros textContent className label es p.
  destruct (handle_all_timers_ok textContent className label es)
    as (Ht & Hr & _).
  split; assumption.
Qed.

Lemma runStep_data (s s' : sim) :
  sim_data s = sim_data s' -> sim_data (runStep s) = sim_data (runStep s').
Proof.
  destruct s, s'. unfold sim_data. cbn [currentStep maxSteps scenario
    milestoneDuration replanTime currentPV currentEV currentAT currentMetrics
    simulationResults].
  intros [= -> -> -> -> -> -> -> -> -> ->].
  unfold runStep. cbn [currentStep maxSteps scenario milestoneDuration
    replanTime currentPV currentEV currentAT currentMetrics
    simulationResults].
  destruct (currentStep1 >=? maxSteps1); reflexivity.
Qed.

Lemma runStep_complete_data (s : sim) :
  currentStep s >= maxSteps s -> sim_data (runStep s) = sim_data s.
Proof. intro H. rewrite runStep_complete by exact H. reflexivity. Qed.

Lemma fires_idle (k : nat) (p : page) :
  simulationInterval (esSimulation p) = None -> fires k p = p.
Proof.
  intro H. induction k as [|k IH]; [reflexivity|].
  cbn [fires]. unfold fire. rewrite H. exact IH.
Qed.

(** The firing of the timer that the object holds. *)
Lemma fire_running (p : page) (id : Z) :
  timers_ok p ->
  simulationInterval (esSimulation p) = Some id ->
  fire p
  = if currentStep (esSimulation p) >=? maxSteps (esSimulation p)
    then {| esSimulation := set_timer (esSimulation p) false None;
            activeTimers := [];
            nextTimerId := nextTimerId p;
            btnSimPlay_textContent := "Play"%string |}
    else page_runStep p.
Proof.
  intros (Ht & _) Hi. unfold fire, intervalCallback. rewrite Hi, Ht, Hi.
  rewrite existsb_single, Z.eqb_refl. cbn [negb clearInterval].
  now rewrite remove_single.
Qed.

Lemma fires_data (k : nat) :
  forall (p : page) (s : sim),
  timers_ok p ->
  (simulationInterval (esSimulation p) = None ->
   currentStep (esSimulation p) >= maxSteps (esSimulation p)) ->
  sim_data (esSimulation p) = sim_data s ->
  sim_data (esSimulation (fires k p)) = sim_data (runSteps k s).
Proof.
  induction k as [|k IH]; intros p s Hok Hnone Hdata; [exact Hdata|].
  cbn [fires runSteps].
  assert (Hcm : currentStep (esSimulation p) = currentStep s /\
                maxSteps (esSimulation p) = maxSteps s).
  { unfold sim_data in Hdata. injection Hdata. intros. now split. }
  destruct Hcm as (Hc & Hm).
  destruct (simulationInterval (esSimulation p)) as [id|] eqn:Hi.
  - rewrite (fire_running p id Hok Hi).
    destruct (Z.geb_spec (currentStep (esSimulation p))
                (maxSteps (esSimulation p))) as [Hge|Hlt].
    + apply IH.
      * unfold timers_ok. cbn. destruct Hok as (_ & _ & _ & Hn).
        split; [reflexivity | split; [reflexivity | split;
          [intros i Hi'; discriminate Hi' | exact Hn]]].
      * intros _. cbn. lia.
      * cbn [esSimulation]. rewrite runStep_complete_data by lia.
        exact Hdata.
    + apply IH.
      * now apply page_runStep_timers_ok.
      * cbn [page_runStep esSimulation].
        destruct (runStep_timer (esSimulation p)) as (_ & Ri).
        rewrite Ri, Hi. cbn [andb].
        rewrite (runStep_currentStep _ Hlt), runStep_maxSteps.
        destruct (Z.geb_spec (currentStep (esSimulation p))
                    (maxSteps (esSimulation p))) as [H|_]; [lia|].
        cbn [negb andb].
        destruct (Z.geb_spec (currentStep (esSimulation p) + 1)
                    (maxSteps (esSimulation p))) as [H|_];
          [intros _; lia | intro H'; discriminate H'].
      * cbn [page_runStep esSimulation]. now apply runStep_data.
  - unfold fire. rewrite Hi. specialize (Hnone eq_refl).
    apply IH; [exact Hok | intros _; exact Hnone |].
    rewrite runStep_complete_data by lia. exact Hdata.
Qed.

(** What [startAutoPlay] does to a page that is not running. *)
Lemma startAutoPlay_idle (p : page) :
  timers_ok p ->
  isRunning (esSimulation p) = false ->
  let s1 := set_timer (esSimulation p) true None in
  startAutoPlay p
  = {| esSimulation := set_timer (runStep s1) true (Some (nextTimerId p));
       activeTimers := [nextTimerId p];
       nextTimerId := nextTimerId p + 1;
       btnSimPlay_textContent := "Pause"%string |}.
Proof.
  intros (Ht & Hr & _ & _) Hrun s1. unfold startAutoPlay. rewrite Hrun.
  rewrite Hrun in Hr.
  destruct (simulationInterval (esSimulation p)) as [id|] eqn:E;
    [discriminate|].
  cbv zeta. fold s1.
  destruct (runStep_timer s1) as (Rr & _).
  change (simulationInterval s1) with (@None Z) in Rr.
  rewrite andb_false_r in Rr.
  unfold page_runStep.
  cbn [esSimulation activeTimers nextTimerId btnSimPlay_textContent].
  rewrite Rr, Ht.
  change (simulationInterval s1) with (@None Z). cbn [clearInterval].
  change (isRunning s1) with true.
  destruct (negb (currentStep s1 >=? maxSteps s1)
            && (currentStep s1 + 1 >=? maxSteps s1)); reflexivity.
Qed.

(** X20.  Autoplay computes what manual stepping computes: when the
    object is not running, a click on play followed by [k] firings of its
    timer leaves the step counter, the series, the period pointer, the
    metrics and the log as [k + 1] calls of [runStep] do. *)
Theorem X20_autoplay_equals_manual_stepping :
  forall (p : page) (k : nat),
    timers_ok p ->
    isRunning (esSimulation p) = false ->
    sim_data (esSimulation (fires k (startAutoPlay p)))
    = sim_data (runSteps (S k) (esSimulation p)).
Proof.
  intros p k Hok Hrun.
  rewrite (startAutoPlay_idle p Hok Hrun). cbv zeta.
  cbn [runSteps]. apply fires_data.
  - destruct Hok as (_ & _ & _ & Hn). unfold timers_ok.
    cbn [esSimulation activeTimers nextTimerId set_timer simulationInterval
         isRunning].
    split; [reflexivity | split; [reflexivity | split; [|lia]]].
    intros i [= <-]. lia.
  - intro H. discriminate H.
  - cbn [esSimulation].
    change (sim_data (set_timer (runStep (set_timer (esSimulation p) true
                                            None)) true
                        (Some (nextTimerId p))))
      with (sim_data (runStep (set_timer (esSimulation p) true None))).
    apply runStep_data. reflexivity.
Qed.

Lemma demo_page_timers_ok : timers_ok demo_page.
Proof.
  unfold timers_ok, demo_page. cbn.
  split; [reflexivity | split; [reflexivity | split;
    [intros i Hi; discriminate Hi | lia]]].
Qed.

Lemma X20_witness :
  timers_ok demo_page /\
  isRunning (esSimulation demo_page) = false /\
  sim_data (esSimulation (fires 3 (startAutoPlay demo_page)))
  = sim_data (runSteps 4 (esSimulation demo_page)).
Proof.
  split; [exact demo_page_timers_ok | split; [reflexivity |]].
  apply (X20_autoplay_equals_manual_stepping demo_page 3
           demo_page_timers_ok eq_refl).
Defined.

(** A running autoplay stops by itself. *)
Lemma fires_until_done (k : nat) :
  forall (p : page) (id : Z),
  timers_ok p ->
  simulationInterval (esSimulation p) = Some id ->
  Z.max 1 (maxSteps (esSimulation p) - currentStep (esSimulation p))
  <= Z.of_nat k ->
  let q := fires k p in
  simulationInterval (esSimulation q) = None /\
  isRunning (esSimulation q) = false /\
  activeTimers q = [] /\
  btnSimPlay_textContent q
  = (if currentStep (esSimulation p) >=? maxSteps (esSimulation p)
     then "Play"%string else btnSimPlay_textContent p).
Proof.
  induction k as [|k IH]; intros p id Hok Hi Hk; [lia|].
  cbn [fires]. cbv zeta. rewrite (fire_running p id Hok Hi).
  destruct (Z.geb_spec (currentStep (esSimulation p))
              (maxSteps (esSimulation p))) as [Hge|Hlt].
  - rewrite fires_idle by reflexivity.
    cbn. repeat split; reflexivity.
  - destruct (runStep_timer (esSimulation p)) as (Rr & Ri).
    rewrite Hi in Rr, Ri.
    destruct (Z.geb_spec (currentStep (esSimulation p))
                (maxSteps (esSimulation p))) as [H|_] in Rr, Ri; [lia|].
    cbn [negb andb] in Rr, Ri.
    pose proof (page_runStep_timers_ok p Hok) as Hok'.
    destruct (Z.geb_spec (currentStep (esSimulation p) + 1)
                (maxSteps (esSimulation p))) as [Hdone|Hmore] in Rr, Ri.
    + cbn [andb] in Rr, Ri.
      rewrite fires_idle by (cbn [page_runStep esSimulation]; exact Ri).
      destruct Hok' as (Ht' & _).
      cbn [page_runStep esSimulation btnSimPlay_textContent] in *.
      rewrite Ri in Ht'. rewrite Ht', Ri, Rr. repeat split; reflexivity.
    + cbn [andb] in Rr, Ri.
      assert (Hi' : simulationInterval (esSimulation (page_runStep p))
                    = Some id) by (cbn [page_runStep esSimulation]; exact Ri).
      destruct (IH (page_runStep p) id Hok' Hi') as (G1 & G2 & G3 & G4).
      * cbn [page_runStep esSimulation].
        rewrite (runStep_currentStep _ Hlt), runStep_maxSteps. lia.
      * split; [exact G1 | split; [exact G2 | split; [exact G3|]]].
        rewrite G4. cbn [page_runStep esSimulation btnSimPlay_textContent].
        rewrite (runStep_currentStep _ Hlt), runStep_maxSteps.
        destruct (Z.geb_spec (currentStep (esSimulation p) + 1)
                    (maxSteps (esSimulation p))) as [H|_]; [lia|].
        reflexivity.
Qed.

(** X21.  The autoplay ends by itself and releases its timer: when the
    object is not running, after a click on play and at least
    max(1, maxSteps - currentStep) firings of the timer, the object is
    not running, holds no timer, and no timer is active.  The play button
    then reads "Play" only if the step made by the click was already the
    last one; otherwise it still reads "Pause". *)
Theorem X21_autoplay_ends_and_releases_its_timer :
  forall (p : page) (k : nat),
    timers_ok p ->
    isRunning (esSimulation p) = false ->
    Z.max 1 (maxSteps (esSimulation p) - currentStep (esSimulation p))
    <= Z.of_nat k ->
    let q := fires k (startAutoPlay p) in
    isRunning (esSimulation q) = false /\
    simulationInterval (esSimulation q) = None /\
    activeTimers q = [] /\
    btnSimPlay_textContent q
    = (if currentStep (esSimulation p) + 1 >=? maxSteps (esSimulation p)
       then "Play"%string else "Pause"%string).
Proof.
  intros p k Hok Hrun Hk q. subst q.
  pose proof (startAutoPlay_timers_ok p Hok) as Hok1.
  rewrite (startAutoPlay_idle p Hok Hrun) in *. cbv zeta in *.
  set (s1 := set_timer (esSimulation p) true None) in *.
  assert (Hm : maxSteps (runStep s1) = maxSteps (esSimulation p))
    by (rewrite runStep_maxSteps; reflexivity).
  assert (Hc : currentStep (runStep s1)
               = if currentStep (esSimulation p) >=? maxSteps (esSimulation p)
                 then currentStep (esSimulation p)
                 else currentStep (esSimulation p) + 1).
  { destruct (Z.geb_spec (currentStep (esSimulation p))
                (maxSteps (esSimulation p))) as [Hge|Hlt].
    - rewrite runStep_complete
        by (unfold s1; cbn [set_timer currentStep maxSteps]; lia).
      reflexivity.
    - rewrite runStep_currentStep
        by (unfold s1; cbn [set_timer currentStep maxSteps]; lia).
      reflexivity. }
  match goal with
  | |- context [fires k ?P] =>
      destruct (fires_until_done k P (nextTimerId p) Hok1 eq_refl)
        as (G1 & G2 & G3 & G4)
  end.
  - cbn [esSimulation set_timer maxSteps currentStep]. rewrite Hm, Hc.
    destruct (currentStep (esSimulation p) >=? maxSteps (esSimulation p));
      lia.
  - split; [exact G2 | split; [exact G1 | split; [exact G3|]]].
    rewrite G4.
    cbn [esSimulation set_timer maxSteps currentStep btnSimPlay_textContent].
    rewrite Hm, Hc.
    destruct (Z.geb_spec (currentStep (esSimulation p))
                (maxSteps (esSimulation p))) as [Hge|Hlt].
    + destruct (Z.geb_spec (currentStep (esSimulation p))
                  (maxSteps (esSimulation p))) as [_|H]; [|lia].
      destruct (Z.geb_spec (currentStep (esSimulation p) + 1)
                  (maxSteps (esSimulation p))) as [_|H]; [|lia].
      reflexivity.
    + reflexivity.
Qed.

Lemma X21_witness :
  timers_ok demo_page /\
  isRunning (esSimulation demo_page) = false /\
  Z.max 1 (maxSteps (esSimulation demo_page)
           - currentStep (esSimulation demo_page)) <= Z.of_nat 2 /\
  activeTimers (fires 2 (startAutoPlay demo_page)) = [] /\
  btnSimPlay_textContent (fires 2 (startAutoPlay demo_page))
  = "Pause"%string.
Proof.
  assert (Hk : Z.max 1 (maxSteps (esSimulation demo_page)
                        - currentStep (esSimulation demo_page))
               <= Z.of_nat 2) by (vm_compute; discriminate).
  destruct (X21_autoplay_ends_and_releases_its_timer demo_page 2
              demo_page_timers_ok eq_refl Hk) as (_ & _ & G3 & G4).
  split; [exact demo_page_timers_ok | split; [reflexivity | split;
    [exact Hk | split; [exact G3 | exact G4]]]].
Defined.

(** X22.  Stop cancels the autoplay and may be repeated: after any
    sequence of events on a new page, a click on stop leaves no active
    timer and the object not running, does not change the step counter,
    the series, the metrics or the log, and a second click on stop
    changes nothing. *)
Theorem X22_stop_cancels_autoplay_and_is_idempotent :
  forall (textContent className label : string) (es : list event),
    let p := handle_all (new_page textContent className label) es in
    let q := stopSimulation p in
    activeTimers q = [] /\
    isRunning (esSimulation q) = false /\
    simulationInterval (esSimulation q) = None /\
    sim_data (esSimulation q) = sim_data (esSimulation p) /\
    stopSimulation q = q.
Proof.
  intros textContent className label es p q.
  destruct (handle_all_timers_ok textContent className label es)
    as (Ht & _).
  fold p in Ht. subst q. unfold stopSimulation.
  cbn [esSimulation activeTimers nextTimerId btnSimPlay_textContent].
  rewrite Ht.
  assert (Hclear : clearInterval (simulationInterval (esSimulation p))
                     match simulationInterval (esSimulation p) with
                     | Some id => [id]
                     | None => []
                     end = []).
  { destruct (simulationInterval (esSimulation p));
      [apply remove_single | reflexivity]. }
  rewrite Hclear.
  destruct (currentStep (esSimulation p) <? maxSteps (esSimulation p)) eqn:E;
    cbn [set_status set_timer currentStep maxSteps simulationInterval
         isRunning clearInterval];
    rewrite ?E; repeat split; reflexivity.
Qed.

End AutoPlay.

(* ================================================================== *)
(** ** The trend sentence and the re-plan *)

Section TrendAndReplan.

Local Open Scope Z_scope.

(** X23.  The trend sentence never reads a missing record: after any
    number of calls of [runStep] from [initSimulation] with
    [steps >= 0], the log has a record at index [currentStep - 2]
    whenever the counter is above 1, so the sentence is built without an
    error; it is empty until the second step. *)
Theorem X23_trend_never_reads_a_missing_record :
  forall (this : sim) (pv ev : list num) (AT md steps : Z) (scen : string)
         (replan : bool) (N : nat),
    0 <= steps ->
    let s := runSteps N (initSimulation this pv ev AT md steps scen replan) in
    (exists text, trendAnalysis s = Some text) /\
    (currentStep s <= 1 -> trendAnalysis s = Some EmptyString).
Proof.
  intros this pv ev AT md steps scen replan N Hsteps s.
  destruct (runSteps_counter N _
              (init_log_in_step this pv ev AT md steps scen replan Hsteps))
    as (_ & _ & (Hb & _ & _ & _ & Hlen)).
  fold s in Hb, Hlen. unfold trendAnalysis. cbv zeta.
  destruct (Z.gtb_spec (currentStep s) 1) as [Hgt|Hle].
  - split; [|lia].
    destruct (nth_error (metrics (simulationResults s))
                (Z.to_nat (currentStep s - 2))) as [m|] eqn:E.
    + eexists. reflexivity.
    + apply nth_error_None in E. unfold alen in Hlen. lia.
  - split; [eexists; reflexivity | reflexivity].
Qed.

Lemma X23_witness :
  0 <= 2 /\
  exists text,
    trendAnalysis (runSteps 2 (demo_sim 2 "recovery" false)) = Some text.
Proof.
  assert (H : 0 <= 2) by lia.
  split; [exact H|].
  apply (X23_trend_never_reads_a_missing_record (constructor "" "")
           demo_PV demo_EV 3 10 2 "recovery"%string false 2 H).
Defined.

Lemma alast_slice (a : list num) (rt : Z) :
  0 <= rt < alen a -> alast (slice a rt) = alast a.
Proof.
  intro H. unfold slice. cbv zeta.
  destruct (Z.ltb_spec rt 0) as [Hn|_]; [lia|].
  rewrite Z.min_l by lia.
  unfold alast, aget, alen in *. rewrite length_skipn.
  destruct (Z.ltb_spec (Z.of_nat (List.length a - Z.to_nat rt) - 1) 0)
    as [Hn|_]; [lia|].
  destruct (Z.ltb_spec (Z.of_nat (List.length a) - 1) 0) as [Hn|_]; [lia|].
  rewrite nth_error_skipn. f_equal. lia.
Qed.

Lemma slice_head (a : list num) (rt : Z) (x : num) :
  0 <= rt -> aget a rt = Some x ->
  exists r, slice a rt = x :: r.
Proof.
  intros Hrt Hget. unfold aget in Hget.
  destruct (Z.ltb_spec rt 0) as [Hn|_]; [lia|].
  assert (Hlt : (Z.to_nat rt < List.length a)%nat)
    by (apply nth_error_Some; congruence).
  unfold slice. cbv zeta.
  destruct (Z.ltb_spec rt 0) as [Hn|_]; [lia|].
  rewrite Z.min_l by (unfold alen; lia).
  rewrite <- (firstn_skipn (Z.to_nat rt) a) in Hget.
  rewrite nth_error_app2 in Hget by (rewrite length_firstn; lia).
  rewrite length_firstn, Nat.min_l, Nat.sub_diag in Hget by lia.
  destruct (skipn (Z.to_nat rt) a) as [|y r]; [discriminate|].
  injection Hget as ->. now exists r.
Qed.

(** X24.  A re-plan period that is not yet earned gives an unbounded
    forecast: when the actual time is after the re-plan time and the
    latest earned value is below the planned value of the re-plan period,
    the earned schedule over the planned values from the re-plan on is 0,
    and the record shows SPI_t_rem = "0.00" and IEAC_t_RP = "Infinity",
    whatever the overall SPI_t is. *)
Theorem X24_unearned_replan_period_gives_unbounded_forecast :
  forall (pvValues evValues : list num) (e p : Q) (actualTime rt : Z)
         (milestoneDuration : option Z),
    0 <= rt < actualTime ->
    rt < alen evValues ->
    alast evValues = Some (Fin e) ->
    aget pvValues rt = Some (Fin p) ->
    (e < p)%Q ->
    let m := calculateMetrics pvValues evValues actualTime
               milestoneDuration (Some rt) in
    calculateEarnedSchedule (alast (slice evValues rt)) (slice pvValues rt)
    = of_Z 0 /\
    SPI_t_rem m = Some "0.00"%string /\
    IEAC_t_RP m = Some "Infinity"%string.
Proof.
  intros pvValues evValues e p actualTime rt md Hrt Hev Hlast Hpv Hlt m.
  assert (HES : calculateEarnedSchedule (alast (slice evValues rt))
                  (slice pvValues rt) = of_Z 0).
  { rewrite alast_slice by lia. rewrite Hlast.
    destruct (slice_head pvValues rt (Fin p) (proj1 Hrt) Hpv) as (r & ->).
    unfold calculateEarnedSchedule. cbv zeta. cbn [to_number scan_C].
    unfold gtb. cbn [ltb]. apply Qltb_lt in Hlt. rewrite Hlt.
    reflexivity. }
  split; [exact HES|].
  assert (Hz : ~ (inject_Z (actualTime - rt) == 0)%Q).
  { change 0%Q with (inject_Z 0). rewrite inject_Z_injective. lia. }
  assert (Hrem : forall x,
             SPI_t_rem_value pvValues evValues x actualTime rt
             = Fin (inject_Z 0 / inject_Z (actualTime - rt))).
  { intro x. unfold SPI_t_rem_value.
    destruct (Z.gtb_spec actualTime rt) as [_|H]; [|lia]. cbv zeta.
    assert (Hlen : alen (slice evValues rt) = alen evValues - rt).
    { unfold slice. cbv zeta.
      destruct (Z.ltb_spec rt 0) as [Hn|_]; [lia|].
      rewrite Z.min_l by lia. unfold alen in *. rewrite length_skipn. lia. }
    destruct (Z.gtb_spec (actualTime - rt) 0) as [_|H]; [|lia].
    rewrite Hlen.
    destruct (Z.gtb_spec (alen evValues - rt) 0) as [_|H]; [|lia].
    cbn [andb]. rewrite HES. unfold of_Z. apply div_fin. exact Hz. }
  assert (Hq : (inject_Z 0 / inject_Z (actualTime - rt) == 0)%Q).
  { change (inject_Z 0) with 0%Q. field. exact Hz. }
  subst m. unfold calculateMetrics. cbv zeta. rewrite Hrem.
  assert (HI : IEAC_t_RP_value
                 (Fin (inject_Z 0 / inject_Z (actualTime - rt)))
                 rt (alen pvValues - rt) = PInf).
  { unfold IEAC_t_RP_value, of_Z, gtb. cbn [ltb].
    assert (E : Qltb (inject_Z 0)
                  (inject_Z 0 / inject_Z (actualTime - rt)) = false).
    { apply Qltb_ge. rewrite Hq. apply Qle_refl. }
    now rewrite E. }
  rewrite HI.
  destruct md as [md|]; cbn [SPI_t_rem IEAC_t_RP set_milestone set_replan];
    (split; [f_equal;
             apply (toFixed_comp 2
                      (Fin (inject_Z 0 / inject_Z (actualTime - rt)))
                      (Fin 0) Hq)
            | reflexivity]).
Qed.

Lemma X24_witness :
  0 <= 1 < 3 /\ 1 < alen (qs [8; 9; 12; 20]%Q) /\
  (20 < 25)%Q /\
  SPI_t (calculateMetrics demo_PV (qs [8; 9; 12; 20]%Q) 3 None (Some 1))
  = Some "0.56"%string /\
  SPI_t_rem (calculateMetrics demo_PV (qs [8; 9; 12; 20]%Q) 3 None (Some 1))
  = Some "0.00"%string /\
  IEAC_t_RP (calculateMetrics demo_PV (qs [8; 9; 12; 20]%Q) 3 None (Some 1))
  = Some "Infinity"%string.
Proof.
  assert (H1 : 0 <= 1 < 3) by lia.
  assert (H2 : 1 < alen (qs [8; 9; 12; 20]%Q)) by (vm_compute; reflexivity).
  assert (H3 : (20 < 25)%Q) by (vm_compute; reflexivity).
  split; [exact H1 | split; [exact H2 | split; [exact H3 |]]].
  split; [vm_compute; reflexivity|].
  apply (X24_unearned_replan_period_gives_unbounded_forecast
           demo_PV (qs [8; 9; 12; 20]%Q) 20%Q 25%Q 3 1 None H1 H2
           eq_refl eq_refl H3).
Defined.

End TrendAndReplan.
